(** * The dashboard controller of ai-gaming-rss

    A shallow embedding of the browser script that drives the article
    dashboard (the script with both registries, and the older copy of it
    under [static/app.js] where the two differ): the pure helpers ([badgeClass], [truncate], [escHtml],
    [renderCard]), the asynchronous functions ([loadArticles],
    [updateStatus], [loadCustomFeeds], [loadScrapedSites]), the event
    handlers, and the event loop they run on.

    Conventions.
    - A JavaScript string is the list of its UTF-16 code units.
    - The page is a finite family of elements, each with the properties the
      script reads or writes.
    - An [async] function is a resumption: it runs on the page up to its
      next [await] and hands back a continuation.  The event loop keeps the
      suspended continuations and resumes them when the network answers.
    - What the browser provides and the script only calls (URI encoding,
      JSON printing, locale-dependent date formatting) is a [Host]. *)

From Stdlib Require Import String Ascii NArith Arith Bool List Lia.
Import ListNotations.

Set Implicit Arguments.

(** ** Strings *)

Definition jsstring := list N.

Definition lit (s : string) : jsstring :=
  map N_of_ascii (list_ascii_of_string s).

Definition dq : jsstring := [34%N].
Definition quoted (s : jsstring) : jsstring := dq ++ s ++ dq.
Definition ellipsis : jsstring := [8230%N].          (* U+2026 *)
Definition em_dash : jsstring := [8212%N].           (* U+2014 *)
Definition check_mark : jsstring := [10003%N].       (* U+2713 *)
Definition ballot_x : jsstring := [10007%N].         (* U+2717 *)
Definition mult_x : jsstring := [10005%N].           (* U+2715 *)

Fixpoint str_eqb (a b : jsstring) : bool :=
  match a, b with
  | [], [] => true
  | x :: a', y :: b' => N.eqb x y && str_eqb a' b'
  | _, _ => false
  end.

(** JavaScript truthiness of a string: only the empty string is falsy. *)
Definition truthy (s : jsstring) : bool :=
  match s with [] => false | _ :: _ => true end.

(** A property that may be missing: [None] is the property left out
    ([undefined]).  A property sent as [null] is falsy as well, but it
    prints as [null] where the missing one prints as [undefined]:
    answers with [null] in them are left out of the model. *)
Definition truthy_opt (o : option jsstring) : bool :=
  match o with Some s => truthy s | None => false end.

(** [x || dflt] on an optional string. *)
Definition or_else (o : option jsstring) (dflt : jsstring) : jsstring :=
  match o with
  | Some s => if truthy s then s else dflt
  | None => dflt
  end.

(** ECMAScript WhiteSpace and LineTerminator code units, the ones
    [String.prototype.trim] and [trimEnd] strip. *)
Definition is_space (c : N) : bool :=
  (N.eqb c 9 || N.eqb c 10 || N.eqb c 11 || N.eqb c 12 || N.eqb c 13
   || N.eqb c 32 || N.eqb c 160 || N.eqb c 5760
   || (N.leb 8192 c && N.leb c 8202)
   || N.eqb c 8232 || N.eqb c 8233 || N.eqb c 8239 || N.eqb c 8287
   || N.eqb c 12288 || N.eqb c 65279)%bool.

Fixpoint trimStart (s : jsstring) : jsstring :=
  match s with
  | [] => []
  | c :: s' => if is_space c then trimStart s' else s
  end.

Definition trimEnd (s : jsstring) : jsstring := rev (trimStart (rev s)).

Definition trim (s : jsstring) : jsstring := trimEnd (trimStart s).

(** [text.slice(0, n)] for [0 <= n]. *)
Definition slice0 (n : nat) (s : jsstring) : jsstring := firstn n s.

(** Decimal rendering of a number, as a template literal prints it. *)
Fixpoint digits (fuel n : nat) (acc : jsstring) : jsstring :=
  match fuel with
  | O => acc
  | S fuel' =>
      let acc' := N.of_nat (48 + n mod 10) :: acc in
      if n / 10 =? 0 then acc' else digits fuel' (n / 10) acc'
  end.

Definition show_nat (n : nat) : jsstring := digits (S n) n [].

(** [`${x}`] for a property that may be missing. *)
Definition show_str (o : option jsstring) : jsstring :=
  match o with Some s => s | None => lit "undefined" end.

Definition show_num (o : option nat) : jsstring :=
  match o with Some n => show_nat n | None => lit "undefined" end.

(** ** Helpers *)

(** [badgeClass(category)]: strict comparison against the four known
    categories; a missing category compares unequal to all of them. *)
Definition badgeClass (category : option jsstring) : jsstring :=
  match category with
  | Some c =>
      if str_eqb c (lit "GitHub") then lit "badge-github"
      else if str_eqb c (lit "Research") then lit "badge-research"
      else if str_eqb c (lit "Game Dev AI") || str_eqb c (lit "Gaming")
           then lit "badge-game"
      else lit "badge-ai"
  | None => lit "badge-ai"
  end.

(** [truncate(text, max = 300)]. *)
Definition truncate_to (max : nat) (text : jsstring) : jsstring :=
  if negb (truthy text) then []
  else if max <? length text
       then trimEnd (slice0 max text) ++ ellipsis
       else text.

Definition truncate : jsstring -> jsstring := truncate_to 300.

(** [escHtml(str)]: the text is stored as a text node and read back as
    markup, which escapes the three markup characters and the no-break
    space. *)
Definition esc_unit (c : N) : jsstring :=
  if N.eqb c 38 then lit "&amp;"
  else if N.eqb c 60 then lit "&lt;"
  else if N.eqb c 62 then lit "&gt;"
  else if N.eqb c 160 then lit "&nbsp;"
  else [c].

Definition escHtml (str : option jsstring) : jsstring :=
  flat_map esc_unit (or_else str []).

(** ** The browser's own functions *)

(** [encodeURIComponent] and [JSON.stringify] are given as total
    functions.  The browser's [encodeURIComponent] throws [URIError] on
    text with a lone surrogate, and [loadArticles] calls it before its
    [try]: the model is the script on text that is [well_formed], and the
    properties that say a load never rejects are stated for such text.
    [localeDate iso] is [new Date(iso).toLocaleDateString(...)], or [None]
    when the date is invalid; [localeTime iso] is
    [new Date(iso).toLocaleTimeString()]. *)
Class Host := {
  encodeURIComponent : jsstring -> jsstring;
  JSON_stringify : list (string * jsstring) -> jsstring;
  localeDate : jsstring -> option jsstring;
  localeTime : jsstring -> jsstring
}.

(** A host for running the model on concrete inputs. *)
Definition plain_host : Host := {|
  encodeURIComponent := fun s => s;
  JSON_stringify := fun fields => flat_map (fun f => lit (fst f) ++ lit "=" ++ snd f ++ lit ";") fields;
  localeDate := fun iso => Some iso;
  localeTime := fun iso => iso
|}.

(** Well-formed UTF-16: every high surrogate (D800 to DBFF) is followed
    by a low one (DC00 to DFFF), and no low surrogate stands alone.  It is
    the text [encodeURIComponent] accepts. *)
Definition is_high (c : N) : bool := (N.leb 55296 c && N.leb c 56319)%bool.

Definition is_low (c : N) : bool := (N.leb 56320 c && N.leb c 57343)%bool.

Fixpoint well_formed (s : jsstring) : bool :=
  match s with
  | [] => true
  | c :: s' =>
      if is_high c
      then match s' with
           | d :: s'' => is_low d && well_formed s''
           | [] => false
           end
      else negb (is_low c) && well_formed s'
  end.

(** ** The page *)

Inductive tab_name := feed_tab | site_tab.

Inductive el :=
| feed | searchInput | refreshBtn | statusText | articleCount
| addFeedBtn | modalClose
| feedModal | feedUrlInput | feedNameInput | feedCatSelect
| checkFeedBtn | submitFeedBtn | feedUrlStatus | submitStatus
| customFeedsList
| siteUrlInput | siteNameInput | siteQueryInput | siteCatSelect
| submitSiteBtn | submitSiteStatus | scrapedSitesList
| modalTab (t : tab_name) | tabContent (t : tab_name).

Definition tab_eqb (a b : tab_name) : bool :=
  match a, b with
  | feed_tab, feed_tab | site_tab, site_tab => true
  | _, _ => false
  end.

Definition el_eqb (a b : el) : bool :=
  match a, b with
  | feed, feed | searchInput, searchInput | refreshBtn, refreshBtn
  | statusText, statusText | articleCount, articleCount
  | addFeedBtn, addFeedBtn | modalClose, modalClose
  | feedModal, feedModal | feedUrlInput, feedUrlInput
  | feedNameInput, feedNameInput | feedCatSelect, feedCatSelect
  | checkFeedBtn, checkFeedBtn | submitFeedBtn, submitFeedBtn
  | feedUrlStatus, feedUrlStatus | submitStatus, submitStatus
  | customFeedsList, customFeedsList
  | siteUrlInput, siteUrlInput | siteNameInput, siteNameInput
  | siteQueryInput, siteQueryInput | siteCatSelect, siteCatSelect
  | submitSiteBtn, submitSiteBtn | submitSiteStatus, submitSiteStatus
  | scrapedSitesList, scrapedSitesList => true
  | modalTab s, modalTab t | tabContent s, tabContent t => tab_eqb s t
  | _, _ => false
  end.

(** What an element shows: the last [textContent] or [innerHTML] assigned. *)
Inductive content :=
| Text (s : jsstring)
| Html (s : jsstring).

(** A [.delete-feed-btn] of a registry list that has its click listener. *)
Record del_button := { data_id : jsstring; btn_disabled : bool }.

Record element := {
  value : jsstring;
  shown : content;
  classes : list jsstring;
  disabled : bool;
  kids : list jsstring;          (* nodes added with [appendChild], as markup *)
  buttons : list del_button
}.

Inductive job := SearchLoad | AutoRefresh.

Record timer := {
  handle : nat;
  due : N;
  task : job;
  every : option N
}.

(** The state the script's functions read and write: the elements, the
    two timer variables, and the browser's timer table and clock (ms). *)
Record page := {
  dom : el -> element;
  searchDebounce : option nat;
  autoRefreshTimer : option nat;
  timers : list timer;
  next_handle : nat;
  clock : N
}.

Definition with_dom (f : (el -> element) -> el -> element) (p : page) : page :=
  {| dom := f (dom p); searchDebounce := searchDebounce p;
     autoRefreshTimer := autoRefreshTimer p; timers := timers p;
     next_handle := next_handle p; clock := clock p |}.

Definition upd (e : el) (f : element -> element) (d : el -> element) : el -> element :=
  fun e' => if el_eqb e e' then f (d e') else d e'.

Definition set_value (e : el) (v : jsstring) : page -> page :=
  with_dom (upd e (fun x =>
    {| value := v; shown := shown x; classes := classes x;
       disabled := disabled x; kids := kids x; buttons := buttons x |})).

(** Assigning [textContent] or [innerHTML] replaces all descendants. *)
Definition set_shown (e : el) (c : content) : page -> page :=
  with_dom (upd e (fun x =>
    {| value := value x; shown := c; classes := classes x;
       disabled := disabled x; kids := []; buttons := [] |})).

Definition set_textContent (e : el) (s : jsstring) := set_shown e (Text s).
Definition set_innerHTML (e : el) (s : jsstring) := set_shown e (Html s).

Definition set_classes (e : el) (cs : list jsstring) : page -> page :=
  with_dom (upd e (fun x =>
    {| value := value x; shown := shown x; classes := cs;
       disabled := disabled x; kids := kids x; buttons := buttons x |})).

Definition set_disabled (e : el) (b : bool) : page -> page :=
  with_dom (upd e (fun x =>
    {| value := value x; shown := shown x; classes := classes x;
       disabled := b; kids := kids x; buttons := buttons x |})).

Definition appendChild (e : el) (node : jsstring) : page -> page :=
  with_dom (upd e (fun x =>
    {| value := value x; shown := shown x; classes := classes x;
       disabled := disabled x; kids := kids x ++ [node]; buttons := buttons x |})).

(** Text that an attribute written as [name="..."] gives back unchanged:
    a double quote ends the attribute, and the parser rewrites character
    references (ampersand), carriage returns and NUL. *)
Definition attribute_safe (id : jsstring) : bool :=
  forallb (fun c => negb (N.eqb c 34 || N.eqb c 38 || N.eqb c 13 || N.eqb c 0)) id.

(** [querySelectorAll(".delete-feed-btn").forEach(btn => btn.addEventListener ...)]
    on markup that holds one such button per id, each giving its id back
    as [btn.dataset.id].  The rows write the id into the [data-id]
    attribute as it is, not escaped: this is the page for ids that are
    [attribute_safe], and the properties about the ids of the buttons a
    list shows are stated for such ids. *)
Definition listen_delete (e : el) (ids : list jsstring) : page -> page :=
  with_dom (upd e (fun x =>
    {| value := value x; shown := shown x; classes := classes x;
       disabled := disabled x; kids := kids x;
       buttons := map (fun i => {| data_id := i; btn_disabled := false |}) ids |})).

Fixpoint disable_nth (i : nat) (bs : list del_button) : list del_button :=
  match bs, i with
  | [], _ => []
  | b :: bs', O => {| data_id := data_id b; btn_disabled := true |} :: bs'
  | b :: bs', S i' => b :: disable_nth i' bs'
  end.

Definition disable_button (e : el) (i : nat) : page -> page :=
  with_dom (upd e (fun x =>
    {| value := value x; shown := shown x; classes := classes x;
       disabled := disabled x; kids := kids x;
       buttons := disable_nth i (buttons x) |})).

Definition has_class (c : jsstring) (cs : list jsstring) : bool :=
  existsb (str_eqb c) cs.

Definition classList_add (e : el) (c : jsstring) (p : page) : page :=
  let cs := classes (dom p e) in
  set_classes e (if has_class c cs then cs else cs ++ [c]) p.

Definition classList_remove (e : el) (c : jsstring) (p : page) : page :=
  set_classes e (filter (fun x => negb (str_eqb c x)) (classes (dom p e))) p.

(** Timers. *)
Definition clearTimer (h : option nat) (p : page) : page :=
  match h with
  | None => p
  | Some n =>
      {| dom := dom p; searchDebounce := searchDebounce p;
         autoRefreshTimer := autoRefreshTimer p;
         timers := filter (fun t => negb (handle t =? n)) (timers p);
         next_handle := next_handle p; clock := clock p |}
  end.

Definition addTimer (j : job) (delay : N) (repeating : bool) (p : page) : page :=
  {| dom := dom p; searchDebounce := searchDebounce p;
     autoRefreshTimer := autoRefreshTimer p;
     timers := timers p ++
       [{| handle := next_handle p; due := (clock p + delay)%N; task := j;
           every := if repeating then Some delay else None |}];
     next_handle := S (next_handle p); clock := clock p |}.

Definition set_searchDebounce (h : option nat) (p : page) : page :=
  {| dom := dom p; searchDebounce := h;
     autoRefreshTimer := autoRefreshTimer p; timers := timers p;
     next_handle := next_handle p; clock := clock p |}.

Definition set_autoRefreshTimer (h : option nat) (p : page) : page :=
  {| dom := dom p; searchDebounce := searchDebounce p;
     autoRefreshTimer := h; timers := timers p;
     next_handle := next_handle p; clock := clock p |}.

(** ** The backend, as the script sees it *)

Inductive verb := GET | POST | DELETE.

Record request := { method : verb; url : jsstring; body : option jsstring }.

Definition get (u : jsstring) : request := {| method := GET; url := u; body := None |}.

Record article := {
  art_title : option jsstring;
  art_url : option jsstring;
  art_source : option jsstring;
  art_category : option jsstring;
  art_published : option jsstring;
  art_summary : option jsstring
}.

Record feed_source := {
  fs_id : jsstring;
  fs_name : option jsstring;
  fs_url : option jsstring;
  fs_category : option jsstring
}.

Record scraped_site := {
  ss_id : jsstring;
  ss_name : option jsstring;
  ss_url : option jsstring;
  ss_query : option jsstring;
  ss_category : option jsstring
}.

(** [{ name, fetched }] on success, [{ error }] otherwise. *)
Record added_reply := {
  ar_error : option jsstring;
  ar_name : option jsstring;
  ar_fetched : option nat
}.

(** [{ title?, entry_count }] on success, [{ error }] otherwise. *)
Record preview_reply := {
  pr_error : option jsstring;
  pr_title : option jsstring;
  pr_entry_count : option nat
}.

(** The shape of the JSON body each call site expects.  The model covers
    bodies of that shape and bodies that do not parse. *)
Inductive kind := KArticles | KStatus | KFeeds | KSites | KAdded | KPreview | KUnread.

Definition payload (k : kind) : Type :=
  match k with
  | KArticles => list article
  | KStatus => option jsstring          (* [last_fetched] *)
  | KFeeds => list feed_source
  | KSites => list scraped_site
  | KAdded => added_reply
  | KPreview => preview_reply
  | KUnread => unit
  end.

Inductive parsed (A : Type) :=
| Json (a : A)
| SyntaxError (message : jsstring).

Arguments Json {A} a.
Arguments SyntaxError {A} message.

Record response (k : kind) := { status : nat; json_body : parsed (payload k) }.

(** [res.ok]. *)
Definition ok {k} (r : response k) : bool :=
  (200 <=? status r) && (status r <=? 299).

(** How [fetch] settles: it rejects when there is no response at all, and
    resolves for every HTTP status. *)
Inductive fetch_result (k : kind) :=
| Rejected (message : jsstring)
| Resolved (r : response k).

Arguments Rejected {k} message.
Arguments Resolved {k} r.

(** ** Asynchronous functions *)

(** Where a run of script code stops: at its end, at an uncaught
    exception, or at an [await] of the network. *)
Inductive res (A : Type) : Type :=
| Return (a : A) (p : page)
| Raise (message : jsstring) (p : page)
| AwaitFetch (k : kind) (r : request) (p : page)
    (resume : fetch_result k -> page -> res A)
| AwaitBody (p : page) (resume : page -> res A).

Arguments Return {A} a p.
Arguments Raise {A} message p.
Arguments AwaitFetch {A} k r p resume.
Arguments AwaitBody {A} p resume.

Fixpoint rbind {A B} (m : res A) (f : A -> page -> res B) : res B :=
  match m with
  | Return a p => f a p
  | Raise e p => Raise e p
  | AwaitFetch k r p c => AwaitFetch k r p (fun o p' => rbind (c o p') f)
  | AwaitBody p c => AwaitBody p (fun p' => rbind (c p') f)
  end.

Fixpoint rcatch {A} (m : res A) (h : jsstring -> page -> res A) : res A :=
  match m with
  | Return a p => Return a p
  | Raise e p => h e p
  | AwaitFetch k r p c => AwaitFetch k r p (fun o p' => rcatch (c o p') h)
  | AwaitBody p c => AwaitBody p (fun p' => rcatch (c p') h)
  end.

(** [try { m } finally { f }]: [f] runs on both exits; an exception of
    [m] is thrown again after it. *)
Fixpoint rfinally {A} (m : res A) (f : page -> res unit) : res A :=
  match m with
  | Return a p => rbind (f p) (fun _ => Return a)
  | Raise e p => rbind (f p) (fun _ => Raise e)
  | AwaitFetch k r p c => AwaitFetch k r p (fun o p' => rfinally (c o p') f)
  | AwaitBody p c => AwaitBody p (fun p' => rfinally (c p') f)
  end.

Definition async (A : Type) := page -> res A.

Definition ret {A} (a : A) : async A := Return a.
Definition throw {A} (message : jsstring) : async A := Raise message.
Definition bind {A B} (m : async A) (f : A -> async B) : async B :=
  fun p => rbind (m p) f.
Definition try_catch {A} (m : async A) (h : jsstring -> async A) : async A :=
  fun p => rcatch (m p) h.
Definition try_finally {A} (m : async A) (f : async unit) : async A :=
  fun p => rfinally (m p) f.

(** A synchronous statement and a synchronous read. *)
Definition act (f : page -> page) : async unit := fun p => Return tt (f p).
Definition read {A} (f : page -> A) : async A := fun p => Return (f p) p.

(** [await fetch(...)]. *)
Definition fetch (k : kind) (r : request) : async (response k) :=
  fun p => AwaitFetch k r p (fun o =>
    match o with
    | Rejected e => throw e
    | Resolved r => ret r
    end).

(** [await res.json()]. *)
Definition json {k} (r : response k) : async (payload k) :=
  fun p => AwaitBody p
    match json_body r with
    | Json a => ret a
    | SyntaxError e => throw e
    end.

Declare Scope async_scope.
Delimit Scope async_scope with async.
Notation "x <- m ;; k" := (bind m (fun x => k))
  (at level 61, m at next level, right associativity) : async_scope.
Notation "m ;; k" := (bind m (fun _ => k))
  (at level 61, right associativity) : async_scope.
Open Scope async_scope.

Fixpoint forEach {A} (l : list A) (f : A -> async unit) : async unit :=
  match l with
  | [] => ret tt
  | a :: l' => f a ;; forEach l' f
  end.

(** [new Error(x).message] for a property that may be missing. *)
Definition error_message (o : option jsstring) : jsstring :=
  match o with Some s => s | None => [] end.

(** [searchInput.value.trim()]. *)
Definition keyword_now (p : page) : jsstring := trim (value (dom p searchInput)).

(** ** Markup

    Template literals are built tag by tag; the white space the source
    has between tags for layout is not reproduced. *)

Definition attr (name : string) (v : jsstring) : jsstring :=
  lit " " ++ lit name ++ lit "=" ++ quoted v.

Definition tag (name : string) (attrs : list jsstring) (inner : jsstring) : jsstring :=
  lit "<" ++ lit name ++ concat attrs ++ lit ">"
  ++ inner ++ lit "</" ++ lit name ++ lit ">".

Definition post (u : jsstring) (b : option jsstring) : request :=
  {| method := POST; url := u; body := b |}.

Definition delete (u : jsstring) : request :=
  {| method := DELETE; url := u; body := None |}.

Section Script.

Context {host : Host}.

Definition formatDate (iso : option jsstring) : jsstring :=
  match iso with
  | None => []
  | Some s =>
      if negb (truthy s) then []
      else match localeDate s with
           | None => []
           | Some d => d
           end
  end.

Definition renderCard (a : article) : jsstring :=
  let catLabel := or_else (art_category a) (lit "AI") in
  tag "article" [attr "class" (lit "card")]
    (tag "div" [attr "class" (lit "card-meta")]
       (tag "span" [attr "class" (lit "badge " ++ badgeClass (art_category a))] catLabel
        ++ tag "span" [attr "class" (lit "source-name")] (escHtml (art_source a))
        ++ tag "span" [attr "class" (lit "card-date")] (formatDate (art_published a)))
     ++ tag "div" [attr "class" (lit "card-title")]
          (tag "a" [attr "href" (escHtml (art_url a)); attr "target" (lit "_blank");
                    attr "rel" (lit "noopener noreferrer")]
             (escHtml (art_title a)))
     ++ (if truthy_opt (art_summary a)
         then tag "p" [attr "class" (lit "card-summary")]
                (escHtml (Some (truncate (or_else (art_summary a) []))))
         else [])
     ++ tag "a" [attr "class" (lit "card-link"); attr "href" (escHtml (art_url a));
                 attr "target" (lit "_blank"); attr "rel" (lit "noopener noreferrer")]
          (lit "Read article &rarr;")).

(** The URL of a load.  The script builds it before its [try]: on a
    keyword that is not [well_formed] the call of [encodeURIComponent]
    throws there, which is outside this model. *)
Definition articles_url (keyword : jsstring) : jsstring :=
  if truthy keyword
  then lit "/api/articles?q=" ++ encodeURIComponent keyword
  else lit "/api/articles".

Definition empty_markup (keyword : jsstring) : jsstring :=
  tag "div" [attr "class" (lit "empty")]
    (lit "No articles found"
     ++ (if truthy keyword
         then lit " for " ++ dq ++ tag "strong" [] (escHtml (Some keyword)) ++ dq
         else [])
     ++ lit ".").

Definition error_markup (message : jsstring) : jsstring :=
  tag "div" [attr "class" (lit "error")] (lit "Failed to load articles: " ++ message).

Definition count_label (n : nat) : jsstring :=
  show_nat n ++ lit " article" ++ (if negb (n =? 1) then lit "s" else []).

Definition loadArticles (keyword : jsstring) : async unit :=
  let url := articles_url keyword in
  try_catch
    (res <- fetch KArticles (get url) ;;
     if negb (ok res) then throw (lit "HTTP " ++ show_nat (status res)) else
     articles <- json res ;;
     act (set_innerHTML feed []) ;;
     (if length articles =? 0
      then act (set_innerHTML feed (empty_markup keyword))
      else forEach articles (fun a => act (appendChild feed (renderCard a)))) ;;
     act (set_textContent articleCount (count_label (length articles))))
    (fun err => act (set_innerHTML feed (error_markup err))).

Definition updateStatus : async unit :=
  try_catch
    (res <- fetch KStatus (get (lit "/api/status")) ;;
     data <- json res ;;
     if truthy_opt data
     then act (set_textContent statusText
                 (lit "Last updated: " ++ localeTime (or_else data [])))
     else act (set_textContent statusText (lit "No articles fetched yet.")))
    (fun _ => act (set_textContent statusText (lit "Status unavailable."))).

(** The search box's [input] listener. *)
Definition onSearchInput (p : page) : page :=
  let p1 := clearTimer (searchDebounce p) p in
  set_searchDebounce (Some (next_handle p1)) (addTimer SearchLoad 350 false p1).

(** What the debounce timer runs. *)
Definition searchCallback : async unit :=
  kw <- read keyword_now ;; loadArticles kw.

(** The refresh button's [click] listener. *)
Definition onRefreshClick : async unit :=
  act (set_disabled refreshBtn true) ;;
  act (set_textContent refreshBtn (lit "Refreshing" ++ ellipsis)) ;;
  act (set_textContent statusText (lit "Fetching latest articles" ++ ellipsis)) ;;
  try_finally
    (try_catch
       (fetch KUnread (post (lit "/api/refresh") None) ;;
        (kw <- read keyword_now ;; loadArticles kw) ;;
        updateStatus)
       (fun err => act (set_textContent statusText (lit "Refresh failed: " ++ err))))
    (act (set_disabled refreshBtn false) ;;
     act (set_innerHTML refreshBtn (lit "&#8635; Refresh"))).

Definition scheduleAutoRefresh (p : page) : page :=
  let p1 := clearTimer (autoRefreshTimer p) p in
  set_autoRefreshTimer (Some (next_handle p1))
    (addTimer AutoRefresh (5 * 60 * 1000) true p1).

(** What the interval timer runs. *)
Definition autoRefreshCallback : async unit :=
  (kw <- read keyword_now ;; loadArticles kw) ;;
  updateStatus.

(** The tab buttons' [click] listener.  Modelled from the spec: the markup
    is not part of the sources; the page has the two tabs [feed] and
    [site], each with its content section. *)
Definition onTabClick (t : tab_name) (p : page) : page :=
  let p1 := classList_remove (modalTab site_tab) (lit "active")
              (classList_remove (modalTab feed_tab) (lit "active") p) in
  let p2 := classList_add (modalTab t) (lit "active") p1 in
  let p3 := classList_add (tabContent site_tab) (lit "hidden")
              (classList_add (tabContent feed_tab) (lit "hidden") p2) in
  classList_remove (tabContent t) (lit "hidden") p3.

Definition closeModal (p : page) : page :=
  classList_add feedModal (lit "hidden") p.

Definition hint (cls : string) (text : jsstring) : jsstring :=
  lit "<p class='" ++ lit cls ++ lit "'>" ++ text ++ lit "</p>".

Definition feed_row (f : feed_source) : jsstring :=
  tag "div" [attr "class" (lit "custom-feed-item")]
    (tag "div" [attr "class" (lit "custom-feed-info")]
       (tag "span" [attr "class" (lit "custom-feed-name")] (escHtml (fs_name f))
        ++ tag "span" [attr "class" (lit "custom-feed-url")] (escHtml (fs_url f))
        ++ tag "span" [attr "class" (lit "badge " ++ badgeClass (fs_category f));
                       attr "style" (lit "margin-top:4px;width:fit-content")]
             (escHtml (fs_category f)))
     ++ tag "button" [attr "class" (lit "delete-feed-btn"); attr "data-id" (fs_id f);
                      attr "title" (lit "Remove feed")] mult_x).

Definition site_row (s : scraped_site) : jsstring :=
  tag "div" [attr "class" (lit "custom-feed-item")]
    (tag "div" [attr "class" (lit "custom-feed-info")]
       (tag "span" [attr "class" (lit "custom-feed-name")] (escHtml (ss_name s))
        ++ tag "span" [attr "class" (lit "custom-feed-url")] (escHtml (ss_url s))
        ++ (if truthy_opt (ss_query s)
            then tag "span" [attr "class" (lit "custom-feed-url")]
                   (lit "Query: " ++ escHtml (ss_query s))
            else [])
        ++ tag "span" [attr "class" (lit "badge " ++ badgeClass (ss_category s));
                       attr "style" (lit "margin-top:4px;width:fit-content")]
             (escHtml (ss_category s)))
     ++ tag "button" [attr "class" (lit "delete-feed-btn"); attr "data-id" (ss_id s);
                      attr "title" (lit "Remove site")] mult_x).

Definition loadCustomFeeds : async unit :=
  act (set_innerHTML customFeedsList (hint "field-hint" (lit "Loading" ++ ellipsis))) ;;
  try_catch
    (res <- fetch KFeeds (get (lit "/api/feeds")) ;;
     feeds <- json res ;;
     if length feeds =? 0
     then act (set_innerHTML customFeedsList
                 (hint "field-hint" (lit "No custom feeds yet.")))
     else
       act (set_innerHTML customFeedsList (flat_map feed_row feeds)) ;;
       act (listen_delete customFeedsList (map fs_id feeds)))
    (fun _ => act (set_innerHTML customFeedsList
                     (hint "field-hint err" (lit "Failed to load feeds.")))).

Definition loadScrapedSites : async unit :=
  act (set_innerHTML scrapedSitesList (hint "field-hint" (lit "Loading" ++ ellipsis))) ;;
  try_catch
    (res <- fetch KSites (get (lit "/api/sites")) ;;
     sites <- json res ;;
     if length sites =? 0
     then act (set_innerHTML scrapedSitesList
                 (hint "field-hint" (lit "No scraped websites yet.")))
     else
       act (set_innerHTML scrapedSitesList (flat_map site_row sites)) ;;
       act (listen_delete scrapedSitesList (map ss_id sites)))
    (fun _ => act (set_innerHTML scrapedSitesList
                     (hint "field-hint err" (lit "Failed to load sites.")))).

(** The [click] listener of the [i]-th delete button of the feed list,
    whose [data-id] is [id]. *)
Definition onDeleteFeedClick (i : nat) (id : jsstring) : async unit :=
  act (disable_button customFeedsList i) ;;
  fetch KUnread (delete (lit "/api/feeds/" ++ id)) ;;
  loadCustomFeeds ;;
  (kw <- read keyword_now ;; loadArticles kw).

Definition onDeleteSiteClick (i : nat) (id : jsstring) : async unit :=
  act (disable_button scrapedSitesList i) ;;
  fetch KUnread (delete (lit "/api/sites/" ++ id)) ;;
  loadScrapedSites ;;
  (kw <- read keyword_now ;; loadArticles kw).

(** Several synchronous statements in a row. *)
Definition statements (fs : list (page -> page)) (p : page) : page :=
  fold_left (fun q f => f q) fs p.

(** The Check button's [click] listener. *)
Definition onCheckFeedClick : async unit :=
  url <- read (fun p => trim (value (dom p feedUrlInput))) ;;
  if negb (truthy url) then ret tt else
  act (set_disabled checkFeedBtn true) ;;
  act (set_classes feedUrlStatus [lit "field-hint"]) ;;
  act (set_textContent feedUrlStatus (lit "Checking" ++ ellipsis)) ;;
  try_finally
    (try_catch
       (res <- fetch KPreview
                 (get (lit "/api/feeds/preview?url=" ++ encodeURIComponent url)) ;;
        data <- json res ;;
        if negb (ok res) then throw (error_message (pr_error data)) else
        act (set_classes feedUrlStatus [lit "field-hint"; lit "ok"]) ;;
        act (set_textContent feedUrlStatus
               (check_mark ++ lit " Valid feed " ++ em_dash ++ lit " "
                ++ show_num (pr_entry_count data) ++ lit " articles found")) ;;
        name <- read (fun p => value (dom p feedNameInput)) ;;
        if truthy_opt (pr_title data) && negb (truthy name)
        then act (set_value feedNameInput (or_else (pr_title data) []))
        else ret tt)
       (fun err =>
          act (set_classes feedUrlStatus [lit "field-hint"; lit "err"]) ;;
          act (set_textContent feedUrlStatus (ballot_x ++ lit " " ++ err))))
    (act (set_disabled checkFeedBtn false)).

Definition added_text (data : added_reply) (what : string) : jsstring :=
  check_mark ++ lit " Added " ++ quoted (show_str (ar_name data)) ++ lit " "
  ++ em_dash ++ lit " " ++ show_num (ar_fetched data) ++ lit what.

(** The Add Feed button's [click] listener.  The request's content-type
    header is not modelled. *)
Definition onSubmitFeedClick : async unit :=
  url <- read (fun p => trim (value (dom p feedUrlInput))) ;;
  if negb (truthy url)
  then act (set_textContent submitStatus (lit "Please enter a URL.")) else
  act (set_disabled submitFeedBtn true) ;;
  act (set_textContent submitFeedBtn (lit "Adding" ++ ellipsis)) ;;
  act (set_textContent submitStatus []) ;;
  try_finally
    (try_catch
       (name <- read (fun p => trim (value (dom p feedNameInput))) ;;
        category <- read (fun p => value (dom p feedCatSelect)) ;;
        res <- fetch KAdded
                 (post (lit "/api/feeds")
                    (Some (JSON_stringify
                             [("url"%string, url); ("name"%string, name);
                              ("category"%string, category)]))) ;;
        data <- json res ;;
        if negb (ok res) then throw (error_message (ar_error data)) else
        act (set_classes submitStatus [lit "field-hint"; lit "ok"]) ;;
        act (set_textContent submitStatus (added_text data " articles fetched.")) ;;
        act (set_value feedUrlInput []) ;;
        act (set_value feedNameInput []) ;;
        act (set_textContent feedUrlStatus []) ;;
        loadCustomFeeds ;;
        (kw <- read keyword_now ;; loadArticles kw))
       (fun err =>
          act (set_classes submitStatus [lit "field-hint"; lit "err"]) ;;
          act (set_textContent submitStatus (ballot_x ++ lit " " ++ err))))
    (act (set_disabled submitFeedBtn false) ;;
     act (set_textContent submitFeedBtn (lit "Add Feed"))).

(** The Add Website button's [click] listener. *)
Definition onSubmitSiteClick : async unit :=
  url <- read (fun p => trim (value (dom p siteUrlInput))) ;;
  if negb (truthy url)
  then act (set_textContent submitSiteStatus (lit "Please enter a URL.")) else
  act (set_disabled submitSiteBtn true) ;;
  act (set_textContent submitSiteBtn (lit "Scraping" ++ ellipsis)) ;;
  act (set_classes submitSiteStatus [lit "field-hint"]) ;;
  act (set_textContent submitSiteStatus (lit "Contacting Tavily AI" ++ ellipsis)) ;;
  try_finally
    (try_catch
       (name <- read (fun p => trim (value (dom p siteNameInput))) ;;
        query <- read (fun p => trim (value (dom p siteQueryInput))) ;;
        category <- read (fun p => value (dom p siteCatSelect)) ;;
        res <- fetch KAdded
                 (post (lit "/api/sites")
                    (Some (JSON_stringify
                             [("url"%string, url); ("name"%string, name);
                              ("query"%string, query);
                              ("category"%string, category)]))) ;;
        data <- json res ;;
        if negb (ok res) then throw (error_message (ar_error data)) else
        act (set_classes submitSiteStatus [lit "field-hint"; lit "ok"]) ;;
        act (set_textContent submitSiteStatus (added_text data " articles scraped.")) ;;
        act (set_value siteUrlInput []) ;;
        act (set_value siteNameInput []) ;;
        act (set_value siteQueryInput []) ;;
        loadScrapedSites ;;
        (kw <- read keyword_now ;; loadArticles kw))
       (fun err =>
          act (set_classes submitSiteStatus [lit "field-hint"; lit "err"]) ;;
          act (set_textContent submitSiteStatus (ballot_x ++ lit " " ++ err))))
    (act (set_disabled submitSiteBtn false) ;;
     act (set_textContent submitSiteBtn (lit "Add Website"))).

(** The start-up block at the end of the script. *)
Definition init : async unit :=
  act (set_innerHTML feed
         (tag "div" [attr "class" (lit "loading")] (lit "Fetching articles" ++ ellipsis))) ;;
  loadArticles [] ;;
  updateStatus ;;
  act scheduleAutoRefresh.

(** The synchronous part of [openModal]. *)
Definition openModal_reset : page -> page :=
  statements
    [ classList_remove feedModal (lit "hidden");
      set_value feedUrlInput [];
      set_value feedNameInput [];
      set_textContent feedUrlStatus [];
      set_textContent submitStatus [];
      set_value siteUrlInput [];
      set_value siteNameInput [];
      set_value siteQueryInput [];
      set_textContent submitSiteStatus [] ].

End Script.

(** ** The event loop *)

(** A suspended [async] call: waiting for [fetch] to settle, or for the
    body of a response it already has. *)
Inductive waiting :=
| ForResponse (k : kind) (resume : fetch_result k -> page -> res unit)
| ForBody (resume : page -> res unit).

Record world := {
  pg : page;
  inflight : list (nat * waiting);   (* by ticket, in the order issued *)
  next_ticket : nat;
  sent : list request;               (* every request issued so far *)
  unhandled : list jsstring          (* rejections nobody caught *)
}.

Definition on_page (f : page -> page) (w : world) : world :=
  {| pg := f (pg w); inflight := inflight w; next_ticket := next_ticket w;
     sent := sent w; unhandled := unhandled w |}.

(** Book a run of script code that has stopped. *)
Definition settle (r : res unit) (w : world) : world :=
  match r with
  | Return _ p =>
      {| pg := p; inflight := inflight w; next_ticket := next_ticket w;
         sent := sent w; unhandled := unhandled w |}
  | Raise e p =>
      {| pg := p; inflight := inflight w; next_ticket := next_ticket w;
         sent := sent w; unhandled := unhandled w ++ [e] |}
  | AwaitFetch k r p c =>
      {| pg := p; inflight := inflight w ++ [(next_ticket w, ForResponse c)];
         next_ticket := S (next_ticket w);
         sent := sent w ++ [r]; unhandled := unhandled w |}
  | AwaitBody p c =>
      {| pg := p; inflight := inflight w ++ [(next_ticket w, ForBody c)];
         next_ticket := S (next_ticket w);
         sent := sent w; unhandled := unhandled w |}
  end.

(** Call an [async] function without awaiting it. *)
Definition spawn (m : async unit) (w : world) : world := settle (m (pg w)) w.

Fixpoint take (ticket : nat) (l : list (nat * waiting))
  : option (waiting * list (nat * waiting)) :=
  match l with
  | [] => None
  | (t, x) :: l' =>
      if t =? ticket then Some (x, l')
      else match take ticket l' with
           | Some (y, rest) => Some (y, (t, x) :: rest)
           | None => None
           end
  end.

Definition with_inflight (l : list (nat * waiting)) (w : world) : world :=
  {| pg := pg w; inflight := l; next_ticket := next_ticket w;
     sent := sent w; unhandled := unhandled w |}.

Definition kind_eq_dec (a b : kind) : {a = b} + {a <> b}.
Proof. decide equality. Defined.

Definition coerce (k k' : kind) (o : fetch_result k) : option (fetch_result k') :=
  match kind_eq_dec k k' with
  | left e => Some (eq_rect k fetch_result o k' e)
  | right _ => None
  end.

Definition find_timer (h : nat) (p : page) : option timer :=
  find (fun t => handle t =? h) (timers p).

(** A timer that fires is dropped, or armed again when it repeats. *)
Definition fired (t : timer) (p : page) : page :=
  {| dom := dom p; searchDebounce := searchDebounce p;
     autoRefreshTimer := autoRefreshTimer p;
     timers :=
       match every t with
       | None => filter (fun x => negb (handle x =? handle t)) (timers p)
       | Some period =>
           map (fun x => if handle x =? handle t
                         then {| handle := handle x; due := (due x + period)%N;
                                 task := task x; every := every x |}
                         else x) (timers p)
       end;
     next_handle := next_handle p; clock := clock p |}.

Definition elapse (dt : N) (p : page) : page :=
  {| dom := dom p; searchDebounce := searchDebounce p;
     autoRefreshTimer := autoRefreshTimer p; timers := timers p;
     next_handle := next_handle p; clock := (clock p + dt)%N |}.

Inductive event :=
| Edit (e : el) (v : jsstring)       (* the user changes a field *)
| Click (e : el)
| ClickDelete (list : el) (i : nat)  (* the [i]-th delete button of a list *)
| KeyDown (key : jsstring)
| Elapse (dt : N)                    (* [dt] ms pass *)
| Fire (h : nat)                     (* the browser runs timer [h] *)
| Respond (ticket : nat) (k : kind) (o : fetch_result k)
| BodyRead (ticket : nat).

Arguments Respond ticket k o : clear implicits.

Section Loop.

Context {host : Host}.

(** [openModal]: the two list loads are started and not awaited. *)
Definition openModal (w : world) : world :=
  spawn loadScrapedSites (spawn loadCustomFeeds (on_page openModal_reset w)).

(** A disabled button receives no click. *)
Definition click (e : el) (w : world) : world :=
  if disabled (dom (pg w) e) then w else
  match e with
  | refreshBtn => spawn onRefreshClick w
  | addFeedBtn => openModal w
  | modalClose => on_page closeModal w
  | feedModal => on_page closeModal w        (* a click on the backdrop itself *)
  | modalTab t => on_page (onTabClick t) w
  | checkFeedBtn => spawn onCheckFeedClick w
  | submitFeedBtn => spawn onSubmitFeedClick w
  | submitSiteBtn => spawn onSubmitSiteClick w
  | _ => w
  end.

Definition clickDelete (list : el) (i : nat) (w : world) : world :=
  match nth_error (buttons (dom (pg w) list)) i with
  | Some b =>
      if btn_disabled b then w else
      match list with
      | customFeedsList => spawn (onDeleteFeedClick i (data_id b)) w
      | scrapedSitesList => spawn (onDeleteSiteClick i (data_id b)) w
      | _ => w
      end
  | None => w
  end.

Definition run_job (j : job) : world -> world :=
  match j with
  | SearchLoad => spawn searchCallback
  | AutoRefresh => spawn autoRefreshCallback
  end.

Definition step (ev : event) (w : world) : world :=
  match ev with
  | Edit e v =>
      let w1 := on_page (set_value e v) w in
      if el_eqb e searchInput then on_page onSearchInput w1 else w1
  | Click e => click e w
  | ClickDelete list i => clickDelete list i w
  | KeyDown key =>
      if str_eqb key (lit "Escape") then on_page closeModal w else w
  | Elapse dt => on_page (elapse dt) w
  | Fire h =>
      match find_timer h (pg w) with
      | Some t =>
          if (due t <=? clock (pg w))%N
          then run_job (task t) (on_page (fired t) w)
          else w
      | None => w
      end
  | Respond ticket k o =>
      match take ticket (inflight w) with
      | Some (ForResponse resume, rest) =>
          match coerce _ o with
          | Some o' => settle (resume o' (pg w)) (with_inflight rest w)
          | None => w
          end
      | _ => w
      end
  | BodyRead ticket =>
      match take ticket (inflight w) with
      | Some (ForBody resume, rest) =>
          settle (resume (pg w)) (with_inflight rest w)
      | _ => w
      end
  end.

Definition run (evs : list event) (w : world) : world :=
  fold_left (fun x ev => step ev x) evs w.

(** The script has just been loaded into page [p]. *)
Definition boot (p : page) : world :=
  spawn init {| pg := p; inflight := []; next_ticket := 0; sent := []; unhandled := [] |}.

End Loop.

(** ** static/app.js

    The copy of the script under [static/] is the same program before the
    scraped-site registry and the tabs were added: it has one registry,
    and its [openModal] differs accordingly.  Everything else it contains
    is word for word the code above. *)
Module StaticApp.
Section Script.

Context {host : Host}.

Definition openModal_reset : page -> page :=
  statements
    [ classList_remove feedModal (lit "hidden");
      set_value feedUrlInput [];
      set_value feedNameInput [];
      set_textContent feedUrlStatus [];
      set_textContent submitStatus [] ].

Definition openModal (w : world) : world :=
  spawn loadCustomFeeds (on_page openModal_reset w).

End Script.
End StaticApp.

(** ** Vocabulary of the properties *)

(** The reason a [fetch] of articles counts as failed: no response, or a
    response whose status is not a success. *)
Definition failure_reason {k} (o : fetch_result k) : option jsstring :=
  match o with
  | Rejected message => Some message
  | Resolved r => if ok r then None else Some (lit "HTTP " ++ show_nat (status r))
  end.

(** A successful response carrying [a]. *)
Definition success (k : kind) (a : payload k) : fetch_result k :=
  Resolved (@Build_response k 200 (Json a)).

(** The article list as a successful load of [l] for [keyword] leaves it. *)
Definition list_of {host : Host} (keyword : jsstring) (l : list article) : element -> Prop :=
  fun x =>
    match l with
    | [] => shown x = Html (empty_markup keyword) /\ kids x = []
    | _ :: _ => shown x = Html [] /\ kids x = map renderCard l
    end.

(** [Q] holds of the page wherever a run of script code ends, however the
    network answers and whatever else has run in between. *)
Fixpoint ends_with (Q : page -> Prop) (r : res unit) : Prop :=
  match r with
  | Return _ p => Q p
  | Raise _ p => Q p
  | AwaitFetch _ _ _ c => forall o p', ends_with Q (c o p')
  | AwaitBody _ c => forall p', ends_with Q (c p')
  end.

(** Every ticket and every timer handle in use is older than the next
    one to be given out. *)
Definition tickets_fresh (w : world) : Prop :=
  forall t x, In (t, x) (inflight w) -> t < next_ticket w.

Definition handles_fresh (p : page) : Prop :=
  forall t, In t (timers p) -> handle t < next_handle p.

(** The only debounce timer in the table is the one [searchDebounce]
    names. *)
Definition one_debounce (p : page) : Prop :=
  forall t, In t (timers p) -> task t = SearchLoad ->
    searchDebounce p = Some (handle t).

Definition is_search (t : timer) : bool :=
  match task t with SearchLoad => true | AutoRefresh => false end.



(** A page with nothing on it and a world with nothing going on, for
    running the model on concrete inputs. *)
Definition blank : element :=
  {| value := []; shown := Text []; classes := []; disabled := false;
     kids := []; buttons := [] |}.

Definition page0 : page :=
  {| dom := fun _ => blank; searchDebounce := None; autoRefreshTimer := None;
     timers := []; next_handle := 0; clock := 0 |}.

Definition world0 : world :=
  {| pg := page0; inflight := []; next_ticket := 0; sent := []; unhandled := [] |}.

Definition titled (t : string) : article :=
  {| art_title := Some (lit t); art_url := None; art_source := None;
     art_category := None; art_published := None; art_summary := None |}.

(** Strings of white space only, and strings that do not end in white
    space. *)
Definition spaces (s : jsstring) : Prop := Forall (fun c => is_space c = true) s.

Definition tidy_end (s : jsstring) : Prop :=
  forall pre c, s = pre ++ [c] -> is_space c = false.

(** The page while a refresh is running. *)
Definition refreshing (p : page) : page :=
  set_textContent statusText (lit "Fetching latest articles" ++ ellipsis)
    (set_textContent refreshBtn (lit "Refreshing" ++ ellipsis)
       (set_disabled refreshBtn true p)).

(** The refresh button at rest. *)
Definition refresh_rested (p : page) : page :=
  set_innerHTML refreshBtn (lit "&#8635; Refresh") (set_disabled refreshBtn false p).

(** The two submit buttons at rest. *)
Definition add_feed_rested (p : page) : page :=
  set_textContent submitFeedBtn (lit "Add Feed") (set_disabled submitFeedBtn false p).

Definition add_site_rested (p : page) : page :=
  set_textContent submitSiteBtn (lit "Add Website") (set_disabled submitSiteBtn false p).

(** Appending the cards of a list of articles, and the page after a
    successful load of [articles] for [keyword]. *)
Definition append_cards {host : Host} (l : list article) (q : page) : page :=
  fold_left (fun q a => appendChild feed (renderCard a) q) l q.

Definition show_articles {host : Host} (keyword : jsstring) (articles : list article)
    (q : page) : page :=
  set_textContent articleCount (count_label (length articles))
    ((if length articles =? 0
      then set_innerHTML feed (empty_markup keyword)
      else append_cards articles) (set_innerHTML feed [] q)).

(** Two loads overtaking each other: the load for [kwA] is issued, then
    the load for [kwB]; the response to the second and its body come in,
    and after them the response to the first and its body. *)
Definition overtaken {host : Host} (kwA kwB : jsstring) (la lb : list article)
    (w : world) : world :=
  let w1 := spawn (loadArticles kwA) w in
  let w2 := spawn (loadArticles kwB) w1 in
  let w3 := step (Respond (next_ticket w1) KArticles (success KArticles lb)) w2 in
  let w4 := step (BodyRead (next_ticket w2)) w3 in
  let w5 := step (Respond (next_ticket w) KArticles (success KArticles la)) w4 in
  step (BodyRead (next_ticket w4)) w5.

(** Two loads in flight, A issued before B, both answered with a
    success status and a list of articles.  Four things then come in:
    the response and the body of each. *)
Inductive arrival := ResponseA | BodyA | ResponseB | BodyB.


(** The world during the race, with the ticket each load is waiting on:
    that of its [fetch] first, that of [res.json()] once the response is
    there. *)
Record race := {
  at_world : world;
  ticketA : nat;
  ticketB : nat
}.

Definition arrive {host : Host} (la lb : list article) (r : race) (a : arrival) : race :=
  match a with
  | ResponseA =>
      {| at_world := step (Respond (ticketA r) KArticles (success KArticles la)) (at_world r);
         ticketA := next_ticket (at_world r); ticketB := ticketB r |}
  | BodyA =>
      {| at_world := step (BodyRead (ticketA r)) (at_world r);
         ticketA := ticketA r; ticketB := ticketB r |}
  | ResponseB =>
      {| at_world := step (Respond (ticketB r) KArticles (success KArticles lb)) (at_world r);
         ticketA := ticketA r; ticketB := next_ticket (at_world r) |}
  | BodyB =>
      {| at_world := step (BodyRead (ticketB r)) (at_world r);
         ticketA := ticketA r; ticketB := ticketB r |}
  end.

(** The load for [kwA] is issued, then the load for [kwB], and the four
    arrivals come in the order [sched], nothing else happening in
    between. *)
Definition raced {host : Host} (kwA kwB : jsstring) (la lb : list article)
    (sched : list arrival) (w : world) : world :=
  let w1 := spawn (loadArticles kwA) w in
  let w2 := spawn (loadArticles kwB) w1 in
  at_world (fold_left (arrive la lb) sched
              {| at_world := w2; ticketA := next_ticket w; ticketB := next_ticket w1 |}).




(** What the debounce property needs of the timer table. *)
Definition timers_ok (p : page) : Prop := handles_fresh p /\ one_debounce p.

(** [I] holds of every page a run of script code leaves behind, as long
    as it holds of every page the run is resumed on. *)
Fixpoint keeps {A} (I : page -> Prop) (r : res A) : Prop :=
  match r with
  | Return _ p => I p
  | Raise _ p => I p
  | AwaitFetch _ _ p c => I p /\ forall o p', I p' -> keeps I (c o p')
  | AwaitBody p c => I p /\ forall p', I p' -> keeps I (c p')
  end.

Definition akeeps {A} (I : page -> Prop) (m : async A) : Prop :=
  forall p, I p -> keeps I (m p).

Definition keeps_waiting (I : page -> Prop) (x : waiting) : Prop :=
  match x with
  | ForResponse c => forall o p, I p -> keeps I (c o p)
  | ForBody c => forall p, I p -> keeps I (c p)
  end.

(** The invariant of the event loop. *)
Definition sound (w : world) : Prop :=
  timers_ok (pg w) /\ tickets_fresh w
  /\ forall t x, In (t, x) (inflight w) -> keeps_waiting timers_ok x.

(** ** Vocabulary of the further properties *)

(** A run of script code that never ends in an uncaught exception,
    however the network answers. *)
Fixpoint settles {A} (r : res A) : Prop :=
  match r with
  | Return _ _ => True
  | Raise _ _ => False
  | AwaitFetch _ _ _ c => forall o p', settles (c o p')
  | AwaitBody _ c => forall p', settles (c p')
  end.

(** A run of script code that, on every path, comes to send a request
    satisfying [P]. *)
Fixpoint reaches {A} (P : request -> Prop) (r : res A) : Prop :=
  match r with
  | Return _ _ => False
  | Raise _ _ => False
  | AwaitFetch _ rq _ c => P rq \/ forall o p', reaches P (c o p')
  | AwaitBody _ c => forall p', reaches P (c p')
  end.

(** Two pages that show the same on every element outside [es]. *)
Definition same_except (es : list el) (p q : page) : Prop :=
  forall e, ~ In e es -> dom q e = dom p e.

(** The only interval timer in the table is the one [autoRefreshTimer]
    names. *)
Definition one_interval (p : page) : Prop :=
  forall t, In t (timers p) -> task t = AutoRefresh ->
    autoRefreshTimer p = Some (handle t).

(** The handles the two timer variables hold have been given out, and
    they are not the same handle. *)
Definition vars_fresh (p : page) : Prop :=
  (forall h, searchDebounce p = Some h -> h < next_handle p)
  /\ (forall h, autoRefreshTimer p = Some h -> h < next_handle p).

Definition vars_apart (p : page) : Prop :=
  forall h, searchDebounce p = Some h -> autoRefreshTimer p <> Some h.

(** The timer table is in order: handles are fresh and distinct, and
    each of the two timer variables names the only timer of its kind. *)
Definition timers_tidy (p : page) : Prop :=
  handles_fresh p /\ vars_fresh p /\ vars_apart p
  /\ NoDup (map handle (timers p))
  /\ one_debounce p /\ one_interval p.

(** The interval timer [scheduleAutoRefresh] arms on page [p]. *)
Definition interval_timer (p : page) : timer :=
  {| handle := next_handle p; due := (clock p + 300000)%N; task := AutoRefresh;
     every := Some 300000%N |}.

(** What the status line reads once [updateStatus] has the body. *)
Definition status_line {host : Host} (b : parsed (payload KStatus)) : jsstring :=
  match b with
  | Json data =>
      if truthy_opt data
      then lit "Last updated: " ++ localeTime (or_else data [])
      else lit "No articles fetched yet."
  | SyntaxError _ => lit "Status unavailable."
  end.

(** The page satisfies [I], and so does every suspended call when it is
    resumed on a page that does. *)
Definition steady (I : page -> Prop) (w : world) : Prop :=
  I (pg w) /\ forall t x, In (t, x) (inflight w) -> keeps_waiting I x.

(** Requests by what they ask for. *)
Definition is_status (rq : request) : Prop := rq = get (lit "/api/status").


Definition is_feeds (rq : request) : Prop := rq = get (lit "/api/feeds").

Definition is_sites (rq : request) : Prop := rq = get (lit "/api/sites").

(** Why a preview or an add request counts as failed once its body is
    in: the body is not JSON, or the status is not a success (the reason
    is then the [error] of the body).  [None]: it succeeded. *)
Definition reply_failure {k} (r : response k) (error_of : payload k -> option jsstring)
  : option jsstring :=
  match json_body r with
  | SyntaxError m => Some m
  | Json data => if ok r then None else Some (error_message (error_of data))
  end.

(** The page while a check is running. *)
Definition checking (p : page) : page :=
  set_textContent feedUrlStatus (lit "Checking" ++ ellipsis)
    (set_classes feedUrlStatus [lit "field-hint"]
       (set_disabled checkFeedBtn true p)).


(** The page after a check that found the feed described by [data]. *)
Definition check_passed (data : preview_reply) (p : page) : page :=
  let p1 := set_textContent feedUrlStatus
              (check_mark ++ lit " Valid feed " ++ em_dash ++ lit " "
               ++ show_num (pr_entry_count data) ++ lit " articles found")
              (set_classes feedUrlStatus [lit "field-hint"; lit "ok"] p) in
  set_disabled checkFeedBtn false
    (if truthy_opt (pr_title data) && negb (truthy (value (dom p feedNameInput)))
     then set_value feedNameInput (or_else (pr_title data) []) p1
     else p1).

(** The page while a feed, or a site, is being added. *)
Definition adding_feed (p : page) : page :=
  set_textContent submitStatus []
    (set_textContent submitFeedBtn (lit "Adding" ++ ellipsis)
       (set_disabled submitFeedBtn true p)).

Definition adding_site (p : page) : page :=
  set_textContent submitSiteStatus (lit "Contacting Tavily AI" ++ ellipsis)
    (set_classes submitSiteStatus [lit "field-hint"]
       (set_textContent submitSiteBtn (lit "Scraping" ++ ellipsis)
          (set_disabled submitSiteBtn true p))).

(** The page after an add that failed for [reason]. *)
Definition add_feed_failed (reason : jsstring) (p : page) : page :=
  add_feed_rested
    (set_textContent submitStatus (ballot_x ++ lit " " ++ reason)
       (set_classes submitStatus [lit "field-hint"; lit "err"] p)).

Definition add_site_failed (reason : jsstring) (p : page) : page :=
  add_site_rested
    (set_textContent submitSiteStatus (ballot_x ++ lit " " ++ reason)
       (set_classes submitSiteStatus [lit "field-hint"; lit "err"] p)).



(** The body of the request that adds a feed, or a site, from what the
    form holds. *)
Definition feed_form {host : Host} (p : page) : jsstring :=
  JSON_stringify
    [("url"%string, trim (value (dom p feedUrlInput)));
     ("name"%string, trim (value (dom p feedNameInput)));
     ("category"%string, value (dom p feedCatSelect))].

Definition site_form {host : Host} (p : page) : jsstring :=
  JSON_stringify
    [("url"%string, trim (value (dom p siteUrlInput)));
     ("name"%string, trim (value (dom p siteNameInput)));
     ("query"%string, trim (value (dom p siteQueryInput)));
     ("category"%string, value (dom p siteCatSelect))].

(** What a registry list shows once its load has the body: the error
    placeholder, the empty placeholder, or the rows with one enabled
    delete button per row. *)
Definition feeds_shown {host : Host} (b : parsed (payload KFeeds)) (p : page) : page :=
  match b with
  | SyntaxError _ =>
      set_innerHTML customFeedsList (hint "field-hint err" (lit "Failed to load feeds.")) p
  | Json feeds =>
      if length feeds =? 0
      then set_innerHTML customFeedsList (hint "field-hint" (lit "No custom feeds yet.")) p
      else listen_delete customFeedsList (map fs_id feeds)
             (set_innerHTML customFeedsList (flat_map feed_row feeds) p)
  end.

Definition sites_shown {host : Host} (b : parsed (payload KSites)) (p : page) : page :=
  match b with
  | SyntaxError _ =>
      set_innerHTML scrapedSitesList (hint "field-hint err" (lit "Failed to load sites.")) p
  | Json sites =>
      if length sites =? 0
      then set_innerHTML scrapedSitesList
             (hint "field-hint" (lit "No scraped websites yet.")) p
      else listen_delete scrapedSitesList (map ss_id sites)
             (set_innerHTML scrapedSitesList (flat_map site_row sites) p)
  end.

Definition enabled_button (id : jsstring) : del_button :=
  {| data_id := id; btn_disabled := false |}.

(** The interval timer is armed and [autoRefreshTimer] names it. *)
Definition interval_armed (p : page) : Prop :=
  exists t, In t (timers p) /\ task t = AutoRefresh
            /\ every t = Some 300000%N /\ autoRefreshTimer p = Some (handle t).

(** * Properties *)

(** ** Strings *)

Lemma str_eqb_spec (a b : jsstring) : reflect (a = b) (str_eqb a b).
Proof.
  revert b; induction a as [|x a IH]; intros [|y b]; simpl;
    try (constructor; congruence).
  destruct (N.eqb_spec x y) as [->|ne]; simpl.
  - destruct (IH b) as [->|ne']; constructor; congruence.
  - constructor; congruence.
Qed.

Lemma trimStart_split (s : jsstring) :
  exists ws, s = ws ++ trimStart s /\ spaces ws.
Proof.
  induction s as [|c s [ws [E F]]]; simpl.
  - exists []; split; [reflexivity | constructor].
  - destruct (is_space c) eqn:Hc.
    + exists (c :: ws); split; [simpl; congruence | constructor; assumption].
    + exists []; split; [reflexivity | constructor].
Qed.

Lemma trimStart_head (s : jsstring) c rest :
  trimStart s = c :: rest -> is_space c = false.
Proof.
  induction s as [|d s IH]; simpl; [discriminate|].
  destruct (is_space d) eqn:Hd; [exact IH|].
  intros E; injection E as -> _; exact Hd.
Qed.

Lemma trimStart_spaces (s : jsstring) : spaces s -> trimStart s = [].
Proof.
  induction 1 as [|c s Hc _ IH]; simpl; [reflexivity|].
  rewrite Hc; exact IH.
Qed.

Lemma trimEnd_split (s : jsstring) :
  exists ws, s = trimEnd s ++ ws /\ spaces ws.
Proof.
  unfold trimEnd.
  destruct (trimStart_split (rev s)) as [ws [E F]].
  exists (rev ws); split.
  - rewrite <- rev_app_distr, <- E, rev_involutive; reflexivity.
  - apply Forall_rev; exact F.
Qed.

Lemma trimEnd_tidy (s : jsstring) : tidy_end (trimEnd s).
Proof.
  unfold tidy_end, trimEnd; intros pre c E.
  apply (f_equal (@rev N)) in E.
  rewrite rev_involutive, rev_app_distr in E; simpl in E.
  exact (trimStart_head _ E).
Qed.

Lemma trimEnd_id (s : jsstring) : tidy_end s -> trimEnd s = s.
Proof.
  intros T; unfold trimEnd.
  destruct (rev s) as [|c r] eqn:E.
  - apply (f_equal (@rev N)) in E; rewrite rev_involutive in E; subst; reflexivity.
  - simpl.
    assert (Hs : s = rev r ++ [c]).
    { apply (f_equal (@rev N)) in E; rewrite rev_involutive in E; exact E. }
    rewrite (T _ _ Hs); simpl; symmetry; exact Hs.
Qed.

Lemma trim_spaces (s : jsstring) : spaces s -> trim s = [].
Proof.
  intros H; unfold trim; rewrite (trimStart_spaces H); reflexivity.
Qed.

(** ** Category badges *)

(** C7.  [badgeClass] handles every category value: each of GitHub,
    Research, Game Dev AI and Gaming gets its own class (the two game
    categories share [badge-game]), and every other value, the empty
    string and a missing category included, gets [badge-ai]. *)
Theorem badgeClass_total (category : option jsstring) :
  (category = Some (lit "GitHub") /\ badgeClass category = lit "badge-github")
  \/ (category = Some (lit "Research") /\ badgeClass category = lit "badge-research")
  \/ (category = Some (lit "Game Dev AI") /\ badgeClass category = lit "badge-game")
  \/ (category = Some (lit "Gaming") /\ badgeClass category = lit "badge-game")
  \/ (category <> Some (lit "GitHub") /\ category <> Some (lit "Research")
      /\ category <> Some (lit "Game Dev AI") /\ category <> Some (lit "Gaming")
      /\ badgeClass category = lit "badge-ai").
Proof.
  destruct category as [c|]; unfold badgeClass.
  - destruct (str_eqb_spec c (lit "GitHub")) as [->|n1]; [left; auto|].
    destruct (str_eqb_spec c (lit "Research")) as [->|n2]; [right; left; auto|].
    destruct (str_eqb_spec c (lit "Game Dev AI")) as [->|n3];
      [right; right; left; auto|].
    destruct (str_eqb_spec c (lit "Gaming")) as [->|n4];
      [right; right; right; left; auto|].
    do 4 right; repeat split; congruence.
  - do 4 right; repeat split; congruence.
Qed.

Lemma badgeClass_empty :
  badgeClass (Some []) = lit "badge-ai" /\ badgeClass None = lit "badge-ai".
Proof. split; reflexivity. Qed.

Lemma badgeClass_dedicated :
  lit "badge-github" <> lit "badge-ai" /\ lit "badge-research" <> lit "badge-ai"
  /\ lit "badge-game" <> lit "badge-ai".
Proof. repeat split; discriminate. Qed.

(** ** Summaries *)

(** C3, as the code has it.  A summary of at most 300 code units is
    rendered as it is.  A longer one is cut to its first 300 code units,
    the white space at the end of that prefix is dropped, and the
    ellipsis is put after what remains. *)
Theorem truncate_spec (text : jsstring) :
  (length text <= 300 /\ truncate text = text)
  \/ (300 < length text
      /\ exists kept ws,
           firstn 300 text = kept ++ ws /\ spaces ws /\ tidy_end kept
           /\ truncate text = kept ++ ellipsis).
Proof.
  unfold truncate, truncate_to.
  destruct text as [|c text'] eqn:E.
  - left; split; [cbn [length]; lia | reflexivity].
  - rewrite <- E. replace (negb (truthy text)) with false by (subst; reflexivity).
    destruct (Nat.ltb_spec 300 (length text)) as [L|L].
    + right; split; [exact L|].
      destruct (trimEnd_split (firstn 300 text)) as [ws [S1 S2]].
      exists (trimEnd (firstn 300 text)), ws.
      repeat split; [exact S1 | exact S2 | apply trimEnd_tidy].
    + left; split; [exact L | reflexivity].
Qed.

(** A prefix that does not end in white space is kept whole. *)
Lemma truncate_tidy (text : jsstring) :
  300 < length text -> tidy_end (firstn 300 text) ->
  truncate text = firstn 300 text ++ ellipsis.
Proof.
  intros L T; unfold truncate, truncate_to.
  destruct text as [|c text']; [cbn [length] in L; lia|].
  cbn [truthy negb].
  destruct (Nat.ltb_spec 300 (length (c :: text'))) as [_|L']; [|lia].
  unfold slice0; rewrite (trimEnd_id T); reflexivity.
Qed.

(** C3, as the spec has it, fails: 299 letters, a space and one more
    letter make 301 code units, and the rendered text is the 299 letters
    and the ellipsis, not the first 300 code units and the ellipsis. *)
Lemma truncate_drops_space :
  let text := repeat 97%N 299 ++ [32%N; 98%N] in
  length text = 301
  /\ truncate text = repeat 97%N 299 ++ ellipsis
  /\ truncate text <> firstn 300 text ++ ellipsis.
Proof.
  cbv zeta; split; [vm_compute; reflexivity|].
  split; [vm_compute; reflexivity|].
  intros H; apply (f_equal (@length N)) in H; vm_compute in H; discriminate.
Qed.

(** ** Elements *)

Lemma tab_eqb_spec (a b : tab_name) : reflect (a = b) (tab_eqb a b).
Proof. destruct a, b; constructor; congruence. Qed.

Lemma el_eqb_spec (a b : el) : reflect (a = b) (el_eqb a b).
Proof.
  destruct a, b; simpl; try (constructor; congruence);
    match goal with
    | |- reflect _ (tab_eqb ?s ?t) =>
        destruct (tab_eqb_spec s t); constructor; congruence
    end.
Qed.

Lemma upd_other (e e' : el) f d : e <> e' -> upd e f d e' = d e'.
Proof.
  intros ne; unfold upd; destruct (el_eqb_spec e e'); [contradiction | reflexivity].
Qed.

Lemma upd_same (e : el) f d : upd e f d e = f (d e).
Proof.
  unfold upd; destruct (el_eqb_spec e e); [reflexivity | contradiction].
Qed.

Lemma not_has_class_filter (c : jsstring) (cs : list jsstring) :
  has_class c (filter (fun x => negb (str_eqb c x)) cs) = false.
Proof.
  unfold has_class; induction cs as [|x cs IH]; simpl; [reflexivity|].
  destruct (str_eqb c x) eqn:E; simpl; [exact IH | rewrite E; exact IH].
Qed.

(** ** The feed-URL check *)

(** C10.  A click on Check while the feed URL is empty or all white
    space changes nothing: the world after the click is the world before
    it, so no request is sent and the status text, its class, the name
    field and the button are as they were. *)
Theorem check_blank_url_noop {host : Host} (w : world) :
  spaces (value (dom (pg w) feedUrlInput)) ->
  step (Click checkFeedBtn) w = w.
Proof.
  intros B; unfold step, click.
  destruct (disabled (dom (pg w) checkFeedBtn)); [reflexivity|].
  unfold spawn, onCheckFeedClick, bind, read; cbn [rbind].
  rewrite (trim_spaces B); cbn [truthy negb ret settle].
  destruct w; reflexivity.
Qed.

Lemma check_blank_url_noop_witness :
  let w := on_page (set_value feedUrlInput (lit "   ")) world0 in
  step (host := plain_host) (Click checkFeedBtn) w = w.
Proof.
  intro w; apply (@check_blank_url_noop plain_host w).
  vm_compute; repeat constructor.
Defined.

(** With a URL that is not blank the same click does send the preview
    request, so the guard is what makes the difference. *)
Lemma check_sends_otherwise :
  let w := on_page (set_value feedUrlInput (lit " x ")) world0 in
  map url (sent (step (host := plain_host) (Click checkFeedBtn) w))
  = [lit "/api/feeds/preview?url=x"].
Proof. vm_compute; reflexivity. Qed.

(** ** Loading articles *)

Lemma error_markup_shows (reason : jsstring) :
  exists before after, error_markup reason = before ++ reason ++ after.
Proof.
  unfold error_markup, tag.
  eexists (lit "<" ++ lit "div" ++ concat [attr "class" (lit "error")]
           ++ lit ">" ++ lit "Failed to load articles: "), _.
  repeat rewrite <- app_assoc; reflexivity.
Qed.

(** C6.  [loadArticles] sends one request; when that request gets no
    response, or a response whose status is not a success, the article
    list is replaced by the error message, which contains the reason, and
    every other element, the count label among them, is as it was when
    the answer came in. *)
Theorem loadArticles_failure_frame {host : Host} (keyword : jsstring) (p : page) :
  exists resume,
    loadArticles keyword p
    = AwaitFetch KArticles (get (articles_url keyword)) p resume
    /\ forall (o : fetch_result KArticles) (reason : jsstring) (p' : page),
         failure_reason o = Some reason ->
         exists p'',
           resume o p' = Return tt p''
           /\ shown (dom p'' feed) = Html (error_markup reason)
           /\ kids (dom p'' feed) = []
           /\ (exists before after, error_markup reason = before ++ reason ++ after)
           /\ dom p'' articleCount = dom p' articleCount
           /\ forall e, e <> feed -> dom p'' e = dom p' e.
Proof.
  eexists; split; [reflexivity|].
  intros o reason p' F.
  exists (set_innerHTML feed (error_markup reason) p').
  split.
  - destruct o as [m|r]; unfold failure_reason in F.
    + injection F as <-; reflexivity.
    + destruct (ok r) eqn:K; [discriminate|]. injection F as <-.
      cbn [rbind rcatch ret throw]. rewrite K; reflexivity.
  - split; [reflexivity|]. split; [reflexivity|].
    split; [apply error_markup_shows|].
    split; [reflexivity|].
    intros e ne; unfold set_innerHTML, set_shown, with_dom; cbn [dom].
    apply upd_other; congruence.
Qed.

Lemma loadArticles_failure_frame_witness :
  let o : fetch_result KArticles := Resolved (@Build_response KArticles 500 (SyntaxError [])) in
  exists resume p'',
    loadArticles (host := plain_host) (lit "ai") page0
    = AwaitFetch KArticles (get (lit "/api/articles?q=ai")) page0 resume
    /\ resume o (set_textContent articleCount (lit "7 articles") page0) = Return tt p''
    /\ shown (dom p'' feed) = Html (error_markup (lit "HTTP 500"))
    /\ shown (dom p'' articleCount) = Text (lit "7 articles").
Proof.
  intro o.
  destruct (@loadArticles_failure_frame plain_host (lit "ai") page0) as [resume [E H]].
  destruct (H o (lit "HTTP 500") (set_textContent articleCount (lit "7 articles") page0)
              eq_refl) as [p'' [R [S1 [_ [_ [C _]]]]]].
  exists resume, p''.
  split; [exact E|]. split; [exact R|]. split; [exact S1|].
  rewrite C; reflexivity.
Defined.

(** ** The add-source modal *)

(** The copy under [static/], which has the feed registry only: its
    [openModal] empties its two fields and two status lines and loads its
    one list. *)
Lemma static_openModal_resets_and_loads {host : Host} (w : world) :
  let p' := pg (StaticApp.openModal w) in
  has_class (lit "hidden") (classes (dom p' feedModal)) = false
  /\ value (dom p' feedUrlInput) = []
  /\ value (dom p' feedNameInput) = []
  /\ shown (dom p' feedUrlStatus) = Text []
  /\ shown (dom p' submitStatus) = Text []
  /\ shown (dom p' customFeedsList) = Html (hint "field-hint" (lit "Loading" ++ ellipsis))
  /\ sent (StaticApp.openModal w) = sent w ++ [get (lit "/api/feeds")].
Proof.
  cbv zeta.
  split; [apply not_has_class_filter|].
  do 5 (split; [reflexivity|]).
  reflexivity.
Qed.

(** C9, as the code has it.  [openModal], from any state of the page
    (whatever tab is shown, however the modal was closed, whatever the
    fields and status lines held): the modal is shown; the five text
    inputs (feed URL, feed name, site URL, site name, site query) and the
    three status lines (feed URL status, feed submit status, site submit
    status) are empty; both registry lists are being loaded, each showing
    its placeholder with its request sent; the two category selects are
    as they were.  In the older copy under [static/], which has the feed
    registry only, [openModal] empties the two feed inputs and the two
    feed status lines, keeps the category select, and loads the feed list
    alone. *)
Theorem openModal_resets_and_loads {host : Host} (w : world) :
  let p' := pg (openModal w) in
  let s' := pg (StaticApp.openModal w) in
  (has_class (lit "hidden") (classes (dom p' feedModal)) = false
   /\ value (dom p' feedUrlInput) = []
   /\ value (dom p' feedNameInput) = []
   /\ value (dom p' siteUrlInput) = []
   /\ value (dom p' siteNameInput) = []
   /\ value (dom p' siteQueryInput) = []
   /\ shown (dom p' feedUrlStatus) = Text []
   /\ shown (dom p' submitStatus) = Text []
   /\ shown (dom p' submitSiteStatus) = Text []
   /\ shown (dom p' customFeedsList) = Html (hint "field-hint" (lit "Loading" ++ ellipsis))
   /\ shown (dom p' scrapedSitesList) = Html (hint "field-hint" (lit "Loading" ++ ellipsis))
   /\ sent (openModal w) = sent w ++ [get (lit "/api/feeds"); get (lit "/api/sites")]
   /\ map fst (inflight (openModal w))
      = map fst (inflight w) ++ [next_ticket w; S (next_ticket w)]
   /\ dom p' feedCatSelect = dom (pg w) feedCatSelect
   /\ dom p' siteCatSelect = dom (pg w) siteCatSelect)
  /\ (has_class (lit "hidden") (classes (dom s' feedModal)) = false
      /\ value (dom s' feedUrlInput) = []
      /\ value (dom s' feedNameInput) = []
      /\ shown (dom s' feedUrlStatus) = Text []
      /\ shown (dom s' submitStatus) = Text []
      /\ shown (dom s' customFeedsList) = Html (hint "field-hint" (lit "Loading" ++ ellipsis))
      /\ sent (StaticApp.openModal w) = sent w ++ [get (lit "/api/feeds")]
      /\ map fst (inflight (StaticApp.openModal w)) = map fst (inflight w) ++ [next_ticket w]
      /\ dom s' feedCatSelect = dom (pg w) feedCatSelect).
Proof.
  cbv zeta; split.
  - split; [apply not_has_class_filter|].
    do 10 (split; [reflexivity|]).
    split; [cbn [openModal spawn settle sent]; unfold spawn; cbn; rewrite <- app_assoc; reflexivity|].
    split; [unfold openModal, spawn; cbn; rewrite map_app, map_app, <- app_assoc; reflexivity|].
    split; reflexivity.
  - destruct (static_openModal_resets_and_loads w) as (H & U & N & S1 & S2 & L & R).
    repeat match goal with |- _ /\ _ => split end; try assumption.
    + unfold StaticApp.openModal, spawn; cbn; rewrite map_app; reflexivity.
    + reflexivity.
Qed.

(** C9, as the spec has it, fails: the category select is a field of the
    form that [openModal] does not reset, it still holds what was chosen
    before; and the copy under [static/] loads the feed list only, no
    request for the sites is sent. *)
Lemma openModal_keeps_category :
  let w := on_page (set_value feedCatSelect (lit "Gaming")) world0 in
  value (dom (pg (openModal w)) feedCatSelect) = lit "Gaming"
  /\ value (dom (pg (openModal w)) feedCatSelect) <> []
  /\ sent (StaticApp.openModal w) = [get (lit "/api/feeds")].
Proof.
  cbv zeta; split; [reflexivity|]. split; [|reflexivity].
  intros E; apply (f_equal (@length N)) in E; vm_compute in E; discriminate.
Qed.

(** The button that opens the modal is never disabled by the script, and
    a click on it is [openModal]. *)
Lemma addFeedBtn_opens {host : Host} (w : world) :
  disabled (dom (pg w) addFeedBtn) = false ->
  step (Click addFeedBtn) w = openModal w.
Proof. intros E; unfold step, click; rewrite E; reflexivity. Qed.

(** ** Manual refresh *)

(** C2, where the code departs from it.  The click handler sends
    [POST /api/refresh] and, whatever the status of the response (a 500
    as well as a 200), goes on to load the articles: the status is never
    looked at, so a non-success status skips nothing and the status line
    is left as it is. *)
Theorem refresh_ignores_status {host : Host} (p : page) :
  exists resume,
    onRefreshClick p
    = AwaitFetch KUnread (post (lit "/api/refresh") None) (refreshing p) resume
    /\ forall (r : response KUnread) (p' : page),
         exists resume',
           resume (Resolved r) p'
           = AwaitFetch KArticles (get (articles_url (keyword_now p'))) p' resume'.
Proof.
  eexists; split; [reflexivity|].
  intros r p'; eexists; reflexivity.
Qed.

(** The part of C2 the code does have: when the request gets no response
    at all, nothing more is sent, the status line shows the reason, and
    the button is back at rest. *)
Lemma refresh_transport_failure {host : Host} (p : page) :
  exists resume,
    onRefreshClick p
    = AwaitFetch KUnread (post (lit "/api/refresh") None) (refreshing p) resume
    /\ forall (m : jsstring) (p' : page),
         resume (Rejected m) p'
         = Return tt (refresh_rested
                        (set_textContent statusText (lit "Refresh failed: " ++ m) p')).
Proof.
  eexists; split; [reflexivity|].
  intros m p'; reflexivity.
Qed.

(** A run with a failing backend: the refresh answers 500, and the
    article load is sent all the same; when the articles and the status
    have come in, the status line reads as after a good refresh. *)
Lemma refresh_http_500_run :
  let w1 := run (host := plain_host)
              [Click refreshBtn;
               Respond 0 KUnread (Resolved (@Build_response KUnread 500 (Json tt)))]
              world0 in
  let w2 := run (host := plain_host)
              [Respond 1 KArticles (success KArticles []); BodyRead 2;
               Respond 3 KStatus (success KStatus None); BodyRead 4] w1 in
  map method (sent w1) = [POST; GET]
  /\ map url (sent w1) = [lit "/api/refresh"; lit "/api/articles"]
  /\ shown (dom (pg w1) statusText) = Text (lit "Fetching latest articles" ++ ellipsis)
  /\ map url (sent w2) = [lit "/api/refresh"; lit "/api/articles"; lit "/api/status"]
  /\ shown (dom (pg w2) statusText) = Text (lit "No articles fetched yet.")
  /\ disabled (dom (pg w2) refreshBtn) = false
  /\ inflight w2 = [].
Proof. vm_compute; repeat split; reflexivity. Qed.

(** ** Busy controls *)

(** Whatever [m] does, a [finally] block that runs straight through to a
    page satisfying [Q] makes every exit satisfy [Q]. *)
Lemma ends_with_rfinally (Q : page -> Prop) (m : res unit) (g : page -> page) :
  (forall p, Q (g p)) ->
  ends_with Q (rfinally m (fun p => Return tt (g p))).
Proof.
  intros G; induction m as [a p|e p|k r p c IH|p c IH]; cbn [rfinally rbind ends_with].
  - apply G.
  - apply G.
  - intros o p'; apply IH.
  - intros p'; apply IH.
Qed.

(** The refresh button is enabled and carries its resting label wherever
    its handler ends. *)
Lemma refresh_button_restored {host : Host} (p : page) :
  ends_with (fun q => disabled (dom q refreshBtn) = false
                      /\ shown (dom q refreshBtn) = Html (lit "&#8635; Refresh"))
    (onRefreshClick p).
Proof.
  unfold onRefreshClick, bind, act, try_finally; cbn [rbind].
  apply (ends_with_rfinally _ _ refresh_rested).
  intros q; split; reflexivity.
Qed.

(** The Check button is enabled wherever its handler ends, given that it
    was when it was clicked. *)
Lemma check_button_restored {host : Host} (p : page) :
  disabled (dom p checkFeedBtn) = false ->
  ends_with (fun q => disabled (dom q checkFeedBtn) = false) (onCheckFeedClick p).
Proof.
  intros E; unfold onCheckFeedClick, bind, read, act, try_finally; cbn [rbind].
  destruct (truthy (trim (value (dom p feedUrlInput)))); cbn [negb ret ends_with].
  - apply (ends_with_rfinally _ _ (set_disabled checkFeedBtn false)).
    intros q; reflexivity.
  - exact E.
Qed.

(** The two submit buttons are enabled and carry their resting labels
    wherever their handlers end, given that they did when clicked. *)
Lemma submit_feed_button_restored {host : Host} (p : page) :
  let Q q := disabled (dom q submitFeedBtn) = false
             /\ shown (dom q submitFeedBtn) = Text (lit "Add Feed") in
  Q p -> ends_with Q (onSubmitFeedClick p).
Proof.
  intros Q E; unfold onSubmitFeedClick, bind, read, act, try_finally; cbn [rbind].
  destruct (truthy (trim (value (dom p feedUrlInput)))); cbn [negb ret ends_with].
  - apply (ends_with_rfinally _ _ add_feed_rested).
    intros q; split; reflexivity.
  - exact E.
Qed.

Lemma submit_site_button_restored {host : Host} (p : page) :
  let Q q := disabled (dom q submitSiteBtn) = false
             /\ shown (dom q submitSiteBtn) = Text (lit "Add Website") in
  Q p -> ends_with Q (onSubmitSiteClick p).
Proof.
  intros Q E; unfold onSubmitSiteClick, bind, read, act, try_finally; cbn [rbind].
  destruct (truthy (trim (value (dom p siteUrlInput)))); cbn [negb ret ends_with].
  - apply (ends_with_rfinally _ _ add_site_rested).
    intros q; split; reflexivity.
  - exact E.
Qed.

(** ** Deleting a source *)

Lemma take_last (t : nat) (x : waiting) (l : list (nat * waiting)) :
  (forall t' y, In (t', y) l -> t' < t) ->
  take t (l ++ [(t, x)]) = Some (x, l).
Proof.
  induction l as [|[t' y] l IH]; intros F; simpl.
  - rewrite Nat.eqb_refl; reflexivity.
  - assert (L : t' < t) by (apply (F t' y); left; reflexivity).
    destruct (Nat.eqb_spec t' t) as [->|_]; [lia|].
    rewrite IH; [reflexivity|].
    intros t'' z I; apply (F t'' z); right; exact I.
Qed.

Lemma nth_disable_nth (i : nat) (bs : list del_button) (b : del_button) :
  nth_error bs i = Some b ->
  nth_error (disable_nth i bs) i
  = Some {| data_id := data_id b; btn_disabled := true |}.
Proof.
  revert i; induction bs as [|b' bs IH]; intros [|i]; simpl; try discriminate.
  - intros E; injection E as ->; reflexivity.
  - apply IH.
Qed.

(** C4, where the code departs from it.  The delete handlers of both
    lists disable the button and send one [DELETE]; when that request
    gets no response, the handler ends there with the rejection uncaught:
    neither the list nor the articles are loaded again. *)
Theorem delete_rejected_skips_reload {host : Host} (i : nat) (id : jsstring) (p : page) :
  (exists resume,
     onDeleteFeedClick i id p
     = AwaitFetch KUnread (delete (lit "/api/feeds/" ++ id))
         (disable_button customFeedsList i p) resume
     /\ forall m p', resume (Rejected m) p' = Raise m p')
  /\ (exists resume,
        onDeleteSiteClick i id p
        = AwaitFetch KUnread (delete (lit "/api/sites/" ++ id))
            (disable_button scrapedSitesList i p) resume
        /\ forall m p', resume (Rejected m) p' = Raise m p').
Proof.
  split; (eexists; split; [reflexivity|]); intros m p'; reflexivity.
Qed.

(** The part of C4 the code does have: when the [DELETE] gets a response,
    whatever its status (the 404 for an id that is gone as well as a
    200), the list is loaded again, and whatever becomes of that load,
    the articles are loaded again with the keyword of that moment. *)
Lemma delete_resolved_reloads {host : Host} (i : nat) (id : jsstring) (p : page) :
  exists resume,
    onDeleteFeedClick i id p
    = AwaitFetch KUnread (delete (lit "/api/feeds/" ++ id))
        (disable_button customFeedsList i p) resume
    /\ forall (r : response KUnread) (p1 : page),
         exists resume1,
           resume (Resolved r) p1
           = AwaitFetch KFeeds (get (lit "/api/feeds"))
               (set_innerHTML customFeedsList
                  (hint "field-hint" (lit "Loading" ++ ellipsis)) p1) resume1
           /\ forall (m : jsstring) (p2 : page),
                exists resume2,
                  resume1 (Rejected m) p2
                  = AwaitFetch KArticles
                      (get (articles_url
                              (keyword_now
                                 (set_innerHTML customFeedsList
                                    (hint "field-hint err" (lit "Failed to load feeds."))
                                    p2))))
                      (set_innerHTML customFeedsList
                         (hint "field-hint err" (lit "Failed to load feeds.")) p2)
                      resume2.
Proof.
  eexists; split; [reflexivity|].
  intros r p1; eexists; split; [reflexivity|].
  intros m p2; eexists; reflexivity.
Qed.

(** Deleting an id that is already gone: the backend answers 404, the
    list and the articles are loaded again, and nothing is left
    unhandled. *)
Lemma delete_gone_run :
  let w0 := on_page (listen_delete customFeedsList [lit "7"]) world0 in
  let w := run (host := plain_host)
             [ClickDelete customFeedsList 0;
              Respond 0 KUnread (Resolved (@Build_response KUnread 404 (Json tt)));
              Respond 1 KFeeds (success KFeeds []); BodyRead 2;
              Respond 3 KArticles (success KArticles []); BodyRead 4] w0 in
  map method (sent w) = [DELETE; GET; GET]
  /\ map url (sent w) = [lit "/api/feeds/7"; lit "/api/feeds"; lit "/api/articles"]
  /\ unhandled w = []
  /\ inflight w = []
  /\ shown (dom (pg w) customFeedsList)
     = Html (hint "field-hint" (lit "No custom feeds yet.")).
Proof. vm_compute; repeat split; reflexivity. Qed.

(** C5, where the code departs from it.  A delete button that is clicked
    while the network is down stays disabled: the click disables it, the
    [DELETE] is rejected, and the handler ends with the rejection
    uncaught, without enabling the button and without loading the list
    that would have replaced it. *)
Theorem delete_button_stuck {host : Host} (w : world) (i : nat) (b : del_button)
    (m : jsstring) :
  nth_error (buttons (dom (pg w) customFeedsList)) i = Some b ->
  btn_disabled b = false ->
  tickets_fresh w ->
  let w' := run [ClickDelete customFeedsList i;
                 Respond (next_ticket w) KUnread (Rejected m)] w in
  nth_error (buttons (dom (pg w') customFeedsList)) i
  = Some {| data_id := data_id b; btn_disabled := true |}
  /\ sent w' = sent w ++ [delete (lit "/api/feeds/" ++ data_id b)]
  /\ unhandled w' = unhandled w ++ [m]
  /\ inflight w' = inflight w.
Proof.
  intros B E F; cbv zeta.
  unfold run; cbn [fold_left step]; unfold clickDelete.
  rewrite B, E; unfold spawn, onDeleteFeedClick, bind, act, fetch; cbn [rbind settle].
  cbn [inflight next_ticket].
  rewrite take_last by exact F.
  cbn [coerce kind_eq_dec kind_rec kind_rect eq_rect rbind throw settle with_inflight
       pg sent unhandled inflight].
  repeat split.
  unfold disable_button, with_dom; cbn [dom]; rewrite upd_same; cbn [buttons].
  apply nth_disable_nth; exact B.
Qed.

Lemma delete_button_stuck_witness :
  let w0 := on_page (listen_delete customFeedsList [lit "7"]) world0 in
  let w' := run (host := plain_host)
              [ClickDelete customFeedsList 0;
               Respond 0 KUnread (Rejected (lit "Failed to fetch"))] w0 in
  nth_error (buttons (dom (pg w') customFeedsList)) 0
  = Some {| data_id := lit "7"; btn_disabled := true |}
  /\ unhandled w' = [lit "Failed to fetch"].
Proof.
  intros w0 w'.
  assert (F : tickets_fresh w0) by (intros t x I; destruct I).
  destruct (@delete_button_stuck plain_host w0 0
              {| data_id := lit "7"; btn_disabled := false |}
              (lit "Failed to fetch") eq_refl eq_refl F) as [B [_ [U _]]].
  split; [exact B | exact U].
Defined.

(** ** Invariants of the event loop *)

Section Keeps.

Variable I : page -> Prop.

Lemma keeps_rbind {A B} (m : res A) (f : A -> page -> res B) :
  keeps I m -> (forall a, akeeps I (f a)) -> keeps I (rbind m f).
Proof.
  intros M F; induction m as [a p|e p|k r p c IH|p c IH]; cbn [rbind keeps] in *.
  - apply F, M.
  - exact M.
  - destruct M as [Ip M]; split; [exact Ip|]; intros o p' Ip'; apply IH, M, Ip'.
  - destruct M as [Ip M]; split; [exact Ip|]; intros p' Ip'; apply IH, M, Ip'.
Qed.

Lemma keeps_rcatch {A} (m : res A) (h : jsstring -> page -> res A) :
  keeps I m -> (forall e, akeeps I (h e)) -> keeps I (rcatch m h).
Proof.
  intros M F; induction m as [a p|e p|k r p c IH|p c IH]; cbn [rcatch keeps] in *.
  - exact M.
  - apply F, M.
  - destruct M as [Ip M]; split; [exact Ip|]; intros o p' Ip'; apply IH, M, Ip'.
  - destruct M as [Ip M]; split; [exact Ip|]; intros p' Ip'; apply IH, M, Ip'.
Qed.

Lemma keeps_rfinally {A} (m : res A) (f : page -> res unit) :
  keeps I m -> akeeps I f -> keeps I (rfinally m f).
Proof.
  intros M F; induction m as [a p|e p|k r p c IH|p c IH]; cbn [rfinally keeps] in *.
  - apply keeps_rbind; [apply F, M|]. intros _ q Iq; exact Iq.
  - apply keeps_rbind; [apply F, M|]. intros _ q Iq; exact Iq.
  - destruct M as [Ip M]; split; [exact Ip|]; intros o p' Ip'; apply IH, M, Ip'.
  - destruct M as [Ip M]; split; [exact Ip|]; intros p' Ip'; apply IH, M, Ip'.
Qed.

Lemma akeeps_bind {A B} (m : async A) (f : A -> async B) :
  akeeps I m -> (forall a, akeeps I (f a)) -> akeeps I (bind m f).
Proof. intros M F p Ip; apply keeps_rbind; [apply M, Ip | exact F]. Qed.

Lemma akeeps_try_catch {A} (m : async A) (h : jsstring -> async A) :
  akeeps I m -> (forall e, akeeps I (h e)) -> akeeps I (try_catch m h).
Proof. intros M F p Ip; apply keeps_rcatch; [apply M, Ip | exact F]. Qed.

Lemma akeeps_try_finally {A} (m : async A) (f : async unit) :
  akeeps I m -> akeeps I f -> akeeps I (try_finally m f).
Proof. intros M F p Ip; apply keeps_rfinally; [apply M, Ip | exact F]. Qed.

Lemma akeeps_ret {A} (a : A) : akeeps I (ret a).
Proof. intros p Ip; exact Ip. Qed.

Lemma akeeps_throw {A} (e : jsstring) : akeeps I (@throw A e).
Proof. intros p Ip; exact Ip. Qed.

Lemma akeeps_read {A} (f : page -> A) : akeeps I (read f).
Proof. intros p Ip; exact Ip. Qed.

Lemma akeeps_act (f : page -> page) : (forall p, I p -> I (f p)) -> akeeps I (act f).
Proof. intros F p Ip; apply F, Ip. Qed.

Lemma akeeps_fetch (k : kind) (r : request) : akeeps I (fetch k r).
Proof.
  intros p Ip; split; [exact Ip|]; intros [e|r'] p' Ip'; exact Ip'.
Qed.

Lemma akeeps_json (k : kind) (r : response k) : akeeps I (json r).
Proof.
  intros p Ip; split; [exact Ip|]; intros p' Ip'.
  destruct (json_body r); exact Ip'.
Qed.

Lemma akeeps_forEach {A} (l : list A) (f : A -> async unit) :
  (forall a, akeeps I (f a)) -> akeeps I (forEach l f).
Proof.
  intros F; induction l as [|a l IH]; cbn [forEach]; [apply akeeps_ret|].
  apply akeeps_bind; [apply F | intros _; exact IH].
Qed.

Lemma akeeps_if {A} (b : bool) (m n : async A) :
  akeeps I m -> akeeps I n -> akeeps I (if b then m else n).
Proof. destruct b; auto. Qed.

End Keeps.

Lemma timers_ok_with_dom f (p : page) : timers_ok p -> timers_ok (with_dom f p).
Proof. intros H; exact H. Qed.

Lemma timers_ok_elapse dt (p : page) : timers_ok p -> timers_ok (elapse dt p).
Proof. intros H; exact H. Qed.

Lemma timers_ok_clear (h : option nat) (p : page) :
  timers_ok p -> timers_ok (clearTimer h p).
Proof.
  intros [F O]; destruct h as [n|]; [|split; assumption].
  split.
  - intros t It; apply filter_In in It; apply (F t), It.
  - intros t It; apply filter_In in It; apply (O t), It.
Qed.

Lemma timers_ok_onSearchInput (p : page) : timers_ok p -> timers_ok (onSearchInput p).
Proof.
  intros [F O]; unfold onSearchInput.
  assert (C : forall t, In t (timers (clearTimer (searchDebounce p) p)) ->
                handle t < next_handle p /\ task t = AutoRefresh).
  { intros t It; destruct (searchDebounce p) as [h0|] eqn:D; cbn [clearTimer timers] in It.
    - apply filter_In in It; destruct It as [It Ne]; split; [apply F, It|].
      destruct (task t) eqn:Tt; [|reflexivity].
      specialize (O t It Tt); rewrite D in O; injection O as ->.
      rewrite Nat.eqb_refl in Ne; discriminate.
    - split; [apply F, It|].
      destruct (task t) eqn:Tt; [|reflexivity].
      specialize (O t It Tt); rewrite D in O; discriminate. }
  assert (N : next_handle (clearTimer (searchDebounce p) p) = next_handle p)
    by (destruct (searchDebounce p); reflexivity).
  split.
  - intros t It; cbn in It; apply in_app_or in It; destruct It as [It|[<-|[]]].
    + cbn; rewrite N; destruct (C t It); lia.
    + cbn; lia.
  - intros t It Tt; cbn in It; apply in_app_or in It; destruct It as [It|[<-|[]]].
    + destruct (C t It) as [_ Ta]; congruence.
    + reflexivity.
Qed.

Lemma timers_ok_scheduleAutoRefresh {host : Host} (p : page) :
  timers_ok p -> timers_ok (scheduleAutoRefresh p).
Proof.
  intros H; unfold scheduleAutoRefresh.
  destruct (timers_ok_clear (autoRefreshTimer p) H) as [F O].
  set (p1 := clearTimer (autoRefreshTimer p) p) in *.
  split.
  - intros t It; cbn in It; apply in_app_or in It; destruct It as [It|[<-|[]]].
    + cbn; specialize (F t It); lia.
    + cbn; lia.
  - intros t It Tt; cbn in It; apply in_app_or in It; destruct It as [It|[<-|[]]].
    + exact (O t It Tt).
    + discriminate.
Qed.

Lemma timers_ok_fired (t : timer) (p : page) : timers_ok p -> timers_ok (fired t p).
Proof.
  intros [F O]; unfold fired; destruct (every t) as [period|].
  - split.
    + intros x Ix; cbn in Ix; apply in_map_iff in Ix; destruct Ix as [y [<- Iy]].
      cbn; destruct (handle y =? handle t); apply (F y Iy).
    + intros x Ix Tx; cbn in Ix; apply in_map_iff in Ix; destruct Ix as [y [<- Iy]].
      cbn; destruct (handle y =? handle t); cbn in Tx |- *; apply (O y Iy Tx).
  - split.
    + intros x Ix; cbn in Ix; apply filter_In in Ix; apply (F x), Ix.
    + intros x Ix; cbn in Ix; apply filter_In in Ix; apply (O x), Ix.
Qed.

Section ScriptKeeps.

Context {host : Host}.

Ltac keep :=
  repeat lazymatch goal with
    | H : akeeps _ ?m |- akeeps _ ?m => exact H
    | H : forall k, akeeps _ (?m k) |- akeeps _ (?m _) => apply H
    | |- akeeps _ (bind _ _) => apply akeeps_bind; [|intro]
    | |- akeeps _ (try_catch _ _) => apply akeeps_try_catch; [|intro]
    | |- akeeps _ (try_finally _ _) => apply akeeps_try_finally
    | |- akeeps _ (ret _) => apply akeeps_ret
    | |- akeeps _ (throw _) => apply akeeps_throw
    | |- akeeps _ (read _) => apply akeeps_read
    | |- akeeps _ (fetch _ _) => apply akeeps_fetch
    | |- akeeps _ (json _) => apply akeeps_json
    | |- akeeps _ (forEach _ _) => apply akeeps_forEach; intro
    | |- akeeps _ (if _ then _ else _) => apply akeeps_if
    | |- akeeps _ (act scheduleAutoRefresh) =>
        apply akeeps_act; intros ?; apply timers_ok_scheduleAutoRefresh
    | |- akeeps _ (act _) =>
        apply akeeps_act; intros ? ?; apply timers_ok_with_dom; assumption
    end.

Lemma loadArticles_keeps (keyword : jsstring) : akeeps timers_ok (loadArticles keyword).
Proof. unfold loadArticles; keep. Qed.

Lemma updateStatus_keeps : akeeps timers_ok updateStatus.
Proof. unfold updateStatus; keep. Qed.

Lemma loadCustomFeeds_keeps : akeeps timers_ok loadCustomFeeds.
Proof. unfold loadCustomFeeds; keep. Qed.

Lemma loadScrapedSites_keeps : akeeps timers_ok loadScrapedSites.
Proof. unfold loadScrapedSites; keep. Qed.

Lemma reload_keeps : akeeps timers_ok (kw <- read keyword_now ;; loadArticles kw).
Proof. pose proof loadArticles_keeps as L; keep. Qed.

Lemma handlers_keep :
  akeeps timers_ok searchCallback
  /\ akeeps timers_ok autoRefreshCallback
  /\ akeeps timers_ok onRefreshClick
  /\ akeeps timers_ok onCheckFeedClick
  /\ akeeps timers_ok onSubmitFeedClick
  /\ akeeps timers_ok onSubmitSiteClick
  /\ (forall i id, akeeps timers_ok (onDeleteFeedClick i id))
  /\ (forall i id, akeeps timers_ok (onDeleteSiteClick i id))
  /\ akeeps timers_ok init.
Proof.
  pose proof reload_keeps as R.
  pose proof updateStatus_keeps as U.
  pose proof loadCustomFeeds_keeps as LF.
  pose proof loadScrapedSites_keeps as LS.
  repeat match goal with |- _ /\ _ => split end;
    try match goal with |- forall i id, _ => intros i id end.
  - exact R.
  - unfold autoRefreshCallback; keep.
  - unfold onRefreshClick; keep.
  - unfold onCheckFeedClick; keep.
  - unfold onSubmitFeedClick; keep.
  - unfold onSubmitSiteClick; keep.
  - unfold onDeleteFeedClick; keep.
  - unfold onDeleteSiteClick; keep.
  - pose proof loadArticles_keeps as L; unfold init; keep.
Qed.

End ScriptKeeps.

Lemma take_some (t : nat) (l : list (nat * waiting)) x rest :
  take t l = Some (x, rest) ->
  In (t, x) l /\ forall y, In y rest -> In y l.
Proof.
  revert x rest; induction l as [|[t' y] l IH]; intros x rest; cbn [take];
    [discriminate|].
  destruct (Nat.eqb_spec t' t) as [->|_].
  - intros E; injection E as <- <-; split; [left; reflexivity | intros z; right; assumption].
  - destruct (take t l) as [[x' rest']|]; [|discriminate].
    intros E; injection E as <- <-.
    destruct (IH x' rest' eq_refl) as [I S]; split; [right; exact I|].
    intros z [<-|Iz]; [left; reflexivity | right; apply S, Iz].
Qed.

Lemma sound_settle (r : res unit) (w : world) :
  keeps timers_ok r ->
  tickets_fresh w ->
  (forall t x, In (t, x) (inflight w) -> keeps_waiting timers_ok x) ->
  sound (settle r w).
Proof.
  intros K F W; destruct r as [a p|e p|k r p c|p c]; cbn [settle keeps] in *.
  - split; [exact K|]; split; [exact F | exact W].
  - split; [exact K|]; split; [exact F | exact W].
  - destruct K as [Ip K]; split; [exact Ip|]; split.
    + intros t x I; cbn in I |- *; apply in_app_or in I; destruct I as [I|[I|[]]].
      * apply F in I; lia.
      * injection I as <- _; lia.
    + intros t x I; cbn in I; apply in_app_or in I; destruct I as [I|[I|[]]].
      * exact (W t x I).
      * injection I as _ <-; exact K.
  - destruct K as [Ip K]; split; [exact Ip|]; split.
    + intros t x I; cbn in I |- *; apply in_app_or in I; destruct I as [I|[I|[]]].
      * apply F in I; lia.
      * injection I as <- _; lia.
    + intros t x I; cbn in I; apply in_app_or in I; destruct I as [I|[I|[]]].
      * exact (W t x I).
      * injection I as _ <-; exact K.
Qed.

Lemma sound_spawn (m : async unit) (w : world) :
  akeeps timers_ok m -> sound w -> sound (spawn m w).
Proof.
  intros M (T & F & W); apply sound_settle; [apply M, T | exact F | exact W].
Qed.

Lemma sound_on_page (f : page -> page) (w : world) :
  (forall p, timers_ok p -> timers_ok (f p)) -> sound w -> sound (on_page f w).
Proof. intros Hf (T & F & W); split; [apply Hf, T|]; split; [exact F | exact W]. Qed.

(** Every step of the event loop keeps the invariant. *)
Lemma sound_step {host : Host} (ev : event) (w : world) : sound w -> sound (step ev w).
Proof.
  destruct handlers_keep as (K1 & K2 & K3 & K4 & K5 & K6 & K7 & K8 & _).
  intros S; destruct ev as [e v|e|l i|key|dt|h|t k o|t]; cbn [step].
  - destruct (el_eqb e searchInput).
    + apply sound_on_page; [apply timers_ok_onSearchInput|].
      apply sound_on_page; [intros p Hp; exact Hp | exact S].
    + apply sound_on_page; [intros p Hp; exact Hp | exact S].
  - unfold click; destruct (disabled (dom (pg w) e)); [exact S|].
    destruct e; try exact S;
      try (apply sound_spawn; assumption);
      try (apply sound_on_page; [intros p Hp; exact Hp | exact S]).
    unfold openModal; apply sound_spawn; [apply loadScrapedSites_keeps|].
    apply sound_spawn; [apply loadCustomFeeds_keeps|].
    apply sound_on_page; [intros p Hp; exact Hp | exact S].
  - unfold clickDelete.
    destruct (nth_error (buttons (dom (pg w) l)) i) as [b|]; [|exact S].
    destruct (btn_disabled b); [exact S|].
    destruct l; try exact S; apply sound_spawn; auto.
  - destruct (str_eqb key (lit "Escape")); [|exact S].
    apply sound_on_page; [intros p Hp; exact Hp | exact S].
  - apply sound_on_page; [apply timers_ok_elapse | exact S].
  - destruct (find_timer h (pg w)) as [tm|]; [|exact S].
    destruct (due tm <=? clock (pg w))%N; [|exact S].
    assert (S' : sound (on_page (fired tm) w))
      by (apply sound_on_page; [apply timers_ok_fired | exact S]).
    destruct (task tm); apply sound_spawn; assumption.
  - destruct (take t (inflight w)) as [[[k' c|c] rest]|] eqn:E; try exact S.
    destruct (coerce k' o) as [o'|]; [|exact S].
    destruct S as (T & F & W); destruct (take_some _ _ E) as [I Sub].
    apply sound_settle.
    + exact (W t _ I o' (pg w) T).
    + intros t' x I'; apply (F t' x), Sub, I'.
    + intros t' x I'; apply (W t' x), Sub, I'.
  - destruct (take t (inflight w)) as [[[k' c|c] rest]|] eqn:E; try exact S.
    destruct S as (T & F & W); destruct (take_some _ _ E) as [I Sub].
    apply sound_settle.
    + exact (W t _ I (pg w) T).
    + intros t' x I'; apply (F t' x), Sub, I'.
    + intros t' x I'; apply (W t' x), Sub, I'.
Qed.

(** The invariant holds when the script starts on a page that has no
    timers yet, and so in every world the event loop can reach: the
    debounce property is about any moment of a session. *)
Lemma sound_reachable {host : Host} (p : page) (evs : list event) :
  timers p = [] -> sound (run evs (boot p)).
Proof.
  intros E.
  assert (B : sound (boot p)).
  { destruct handlers_keep as (_ & _ & _ & _ & _ & _ & _ & _ & KI).
    apply sound_spawn; [exact KI|].
    split; [|split].
    - split; intros t It; cbn in It; rewrite E in It; destruct It.
    - intros t x I; destruct I.
    - intros t x I; destruct I. }
  revert B; generalize (boot p); induction evs as [|ev evs IH]; intros w S; [exact S|].
  apply IH, sound_step, S.
Qed.

(** ** Overlapping loads *)

Lemma forEach_append {host : Host} (l : list article) (q : page) :
  forEach l (fun a => act (appendChild feed (renderCard a))) q
  = Return tt (append_cards l q).
Proof.
  revert q; induction l as [|a l IH]; intros q; [reflexivity|].
  cbn [forEach]; unfold bind, act at 1; cbn [rbind]. rewrite IH; reflexivity.
Qed.

Lemma append_cards_feed {host : Host} (l : list article) (q : page) :
  kids (dom (append_cards l q) feed) = kids (dom q feed) ++ map renderCard l
  /\ shown (dom (append_cards l q) feed) = shown (dom q feed)
  /\ forall e, e <> feed -> dom (append_cards l q) e = dom q e.
Proof.
  revert q; induction l as [|a l IH]; intros q.
  - cbn [append_cards fold_left map]; rewrite app_nil_r; auto.
  - change (append_cards (a :: l) q) with (append_cards l (appendChild feed (renderCard a) q)).
    destruct (IH (appendChild feed (renderCard a) q)) as [K [S E]].
    rewrite K, S; split; [|split].
    + unfold appendChild, with_dom; cbn [dom]; rewrite upd_same; cbn [kids map].
      rewrite <- app_assoc; reflexivity.
    + reflexivity.
    + intros e ne; rewrite (E e ne).
      unfold appendChild, with_dom; cbn [dom]; apply upd_other; congruence.
Qed.


Lemma show_articles_feed {host : Host} (keyword : jsstring) (l : list article) (q : page) :
  list_of keyword l (dom (show_articles keyword l q) feed)
  /\ shown (dom (show_articles keyword l q) articleCount) = Text (count_label (length l)).
Proof.
  split; [|reflexivity].
  unfold show_articles, list_of; destruct l as [|a l].
  - split; reflexivity.
  - cbn [length Nat.eqb].
    destruct (append_cards_feed (a :: l) (set_innerHTML feed [] q)) as [K [S _]].
    unfold set_textContent. unfold set_shown at 1 2. unfold with_dom at 1 2. cbn [dom].
    rewrite !upd_other by discriminate.
    rewrite K, S; split; reflexivity.
Qed.

Lemma respond_last {host : Host} (w : world) (l : list (nat * waiting)) (t : nat)
    (k : kind) (c : fetch_result k -> page -> res unit) (o : fetch_result k) :
  inflight w = l ++ [(t, ForResponse c)] ->
  (forall t' y, In (t', y) l -> t' < t) ->
  step (Respond t k o) w = settle (c o (pg w)) (with_inflight l w).
Proof.
  intros E F; unfold step; rewrite E, take_last by exact F.
  unfold coerce. destruct k; reflexivity.
Qed.

Lemma body_last {host : Host} (w : world) (l : list (nat * waiting)) (t : nat)
    (c : page -> res unit) :
  inflight w = l ++ [(t, ForBody c)] ->
  (forall t' y, In (t', y) l -> t' < t) ->
  step (BodyRead t) w = settle (c (pg w)) (with_inflight l w).
Proof.
  intros E F; unfold step; rewrite E, take_last by exact F; reflexivity.
Qed.









(** The run of [overtaken] is the last of the six orders. *)
Lemma overtaken_raced {host : Host} (kwA kwB : jsstring) (la lb : list article)
    (w : world) :
  overtaken kwA kwB la lb w
  = raced kwA kwB la lb [ResponseB; BodyB; ResponseA; BodyA] w.
Proof. reflexivity. Qed.



(** When the answers come in the order of the requests, the list shows
    the newer one: it is the order of arrival that decides. *)
Lemma in_order_newest_shown :
  let w := run (host := plain_host)
             [Respond 0 KArticles (success KArticles [titled "A"]); BodyRead 2;
              Respond 1 KArticles (success KArticles [titled "B"; titled "C"]);
              BodyRead 3]
             (spawn (loadArticles (host := plain_host) (lit "b"))
                (spawn (loadArticles (host := plain_host) (lit "a")) world0)) in
  list_of (host := plain_host) (lit "b") [titled "B"; titled "C"] (dom (pg w) feed)
  /\ shown (dom (pg w) articleCount) = Text (lit "2 articles").
Proof. vm_compute; repeat split; reflexivity. Qed.

(** ** Search debounce *)










(** With a pause of 350 ms between two key strokes the timer can run in
    between, and then each key stroke has its own load: the bound of the
    quiet period is what the property rests on. *)
Lemma debounce_pause_loads_twice :
  map url (sent (run (host := plain_host)
                   [Edit searchInput (lit "a"); Elapse 350; Fire 0;
                    Edit searchInput (lit "ai"); Elapse 350; Fire 1] world0))
  = [lit "/api/articles?q=a"; lit "/api/articles?q=ai"].
Proof. vm_compute; reflexivity. Qed.

(** Blank input is the unfiltered load. *)
Lemma debounce_blank_unfiltered :
  map url (sent (run (host := plain_host)
                   [Edit searchInput (lit "  "); Elapse 400; Fire 0] world0))
  = [lit "/api/articles"].
Proof. vm_compute; reflexivity. Qed.

(** * Further properties *)

(** ** Escaping *)

Lemma esc_unit_plain (c x : N) :
  In x (esc_unit c) -> x <> 60%N /\ x <> 62%N /\ x <> 160%N.
Proof.
  unfold esc_unit.
  destruct (N.eqb_spec c 38); [intros I; repeat (destruct I as [<-|I]; [repeat split; discriminate|]); destruct I|].
  destruct (N.eqb_spec c 60); [intros I; repeat (destruct I as [<-|I]; [repeat split; discriminate|]); destruct I|].
  destruct (N.eqb_spec c 62); [intros I; repeat (destruct I as [<-|I]; [repeat split; discriminate|]); destruct I|].
  destruct (N.eqb_spec c 160); [intros I; repeat (destruct I as [<-|I]; [repeat split; discriminate|]); destruct I|].
  intros [<-|[]]; repeat split; assumption.
Qed.

(** X1.  What [escHtml] returns holds no [<], no [>] and no no-break
    space, whatever text it is given, so text put into markup through it
    cannot open or close a tag; a missing or empty text gives the empty
    string. *)
Theorem escHtml_no_markup (str : option jsstring) :
  (forall x, In x (escHtml str) -> x <> 60%N /\ x <> 62%N /\ x <> 160%N)
  /\ escHtml None = [] /\ escHtml (Some []) = [].
Proof.
  split; [|split; reflexivity].
  unfold escHtml; intros x I; apply in_flat_map in I.
  destruct I as [c [_ I]]; exact (esc_unit_plain c x I).
Qed.

(** Text without the four special code units passes through unchanged. *)
Lemma escHtml_plain (s : jsstring) :
  (forall c, In c s -> c <> 38%N /\ c <> 60%N /\ c <> 62%N /\ c <> 160%N) ->
  escHtml (Some s) = s.
Proof.
  unfold escHtml; intros H.
  assert (E : or_else (Some s) [] = s) by (destruct s; reflexivity).
  rewrite E; clear E.
  induction s as [|c s IH]; [reflexivity|]; cbn [flat_map].
  destruct (H c (or_introl eq_refl)) as (n1 & n2 & n3 & n4).
  unfold esc_unit.
  destruct (N.eqb_spec c 38); [contradiction|].
  destruct (N.eqb_spec c 60); [contradiction|].
  destruct (N.eqb_spec c 62); [contradiction|].
  destruct (N.eqb_spec c 160); [contradiction|].
  cbn [app]; f_equal; apply IH; intros d I; apply H; right; exact I.
Qed.

(** ** Functions that never throw *)

Lemma settles_rcatch_all {A} (m : res A) (h : jsstring -> page -> res A) :
  (forall e p, settles (h e p)) -> settles (rcatch m h).
Proof.
  intros H; induction m as [a p|e p|k r p c IH|p c IH]; cbn [rcatch settles].
  - exact Logic.I.
  - apply H.
  - intros o p'; apply IH.
  - intros p'; apply IH.
Qed.

Lemma loadArticles_settles {host : Host} (keyword : jsstring) (p : page) :
  settles (loadArticles keyword p).
Proof.
  unfold loadArticles, try_catch; apply settles_rcatch_all.
  intros e q; exact Logic.I.
Qed.

Lemma updateStatus_settles {host : Host} (p : page) : settles (updateStatus p).
Proof.
  unfold updateStatus, try_catch; apply settles_rcatch_all.
  intros e q; exact Logic.I.
Qed.

Lemma loadCustomFeeds_settles {host : Host} (p : page) : settles (loadCustomFeeds p).
Proof.
  unfold loadCustomFeeds, bind, act, try_catch; cbn [rbind].
  apply settles_rcatch_all; intros e q; exact Logic.I.
Qed.

Lemma loadScrapedSites_settles {host : Host} (p : page) : settles (loadScrapedSites p).
Proof.
  unfold loadScrapedSites, bind, act, try_catch; cbn [rbind].
  apply settles_rcatch_all; intros e q; exact Logic.I.
Qed.

(** X2.  [loadArticles], called with a keyword that is well-formed text,
    and [updateStatus], [loadCustomFeeds] and [loadScrapedSites] never
    throw to their caller: whatever the network answers and whatever the
    page holds when they are resumed, each of them runs to its end.  (On
    a keyword with a lone surrogate [encodeURIComponent] throws before
    the [try] of [loadArticles] is entered.) *)
Theorem loaders_never_throw {host : Host} (keyword : jsstring) (p : page) :
  well_formed keyword = true ->
  settles (loadArticles keyword p) /\ settles (updateStatus p)
  /\ settles (loadCustomFeeds p) /\ settles (loadScrapedSites p).
Proof.
  intros _.
  split; [apply loadArticles_settles|].
  split; [apply updateStatus_settles|].
  split; [apply loadCustomFeeds_settles | apply loadScrapedSites_settles].
Qed.

Lemma loaders_never_throw_witness :
  well_formed (lit "gpu news") = true
  /\ settles (loadArticles (host := plain_host) (lit "gpu news") page0)
  /\ settles (updateStatus (host := plain_host) page0).
Proof.
  assert (W : well_formed (lit "gpu news") = true) by (vm_compute; reflexivity).
  destruct (@loaders_never_throw plain_host (lit "gpu news") page0 W) as (A & S & _).
  split; [exact W|]. split; [exact A | exact S].
Defined.

Lemma settles_rbind {A B} (m : res A) (f : A -> page -> res B) :
  settles m -> (forall a p, settles (f a p)) -> settles (rbind m f).
Proof.
  intros M F; induction m as [a p|e p|k r p c IH|p c IH]; cbn [rbind settles] in *.
  - apply F.
  - exact M.
  - intros o p'; apply IH, M.
  - intros p'; apply IH, M.
Qed.

(** After a call that never throws, what follows it is always run. *)
Lemma reaches_rbind {A B} (P : request -> Prop) (m : res A) (f : A -> page -> res B) :
  settles m -> (forall a p, reaches P (f a p)) -> reaches P (rbind m f).
Proof.
  intros M F; induction m as [a p|e p|k r p c IH|p c IH]; cbn [rbind reaches settles] in *.
  - apply F.
  - destruct M.
  - right; intros o p'; apply IH, M.
  - intros p'; apply IH, M.
Qed.

Lemma reaches_weaken {A} (P Q : request -> Prop) (r : res A) :
  (forall rq, P rq -> Q rq) -> reaches P r -> reaches Q r.
Proof.
  intros PQ; induction r as [a p|e p|k rq p c IH|p c IH]; cbn [reaches]; auto.
  intros [H|H]; [left; apply PQ, H | right; intros o p'; apply IH, H].
Qed.

(** ** A load that succeeds *)

Lemma show_articles_frame {host : Host} (keyword : jsstring) (l : list article) (q : page) :
  same_except [feed; articleCount] q (show_articles keyword l q).
Proof.
  intros e N.
  assert (n1 : feed <> e) by (intros <-; apply N; left; reflexivity).
  assert (n2 : articleCount <> e) by (intros <-; apply N; right; left; reflexivity).
  unfold show_articles, set_textContent.
  unfold set_shown at 1; unfold with_dom at 1; cbn [dom].
  rewrite upd_other by exact n2.
  destruct (length l =? 0).
  - unfold set_innerHTML, set_shown, with_dom; cbn [dom].
    rewrite !upd_other by exact n1; reflexivity.
  - destruct (append_cards_feed l (set_innerHTML feed [] q)) as (_ & _ & F).
    rewrite F by congruence.
    unfold set_innerHTML, set_shown, with_dom; cbn [dom].
    rewrite upd_other by exact n1; reflexivity.
Qed.

(** X3.  A load that is answered with a success status and a list of
    articles replaces the article list and the count label together, from
    that one answer: the list shows one card per article, in the order
    received (or the empty-state message), the label counts the same
    articles, and nothing else on the page changes. *)
Theorem loadArticles_success_renders {host : Host} (keyword : jsstring) :
  exists resume,
    (forall p, loadArticles keyword p
               = AwaitFetch KArticles (get (articles_url keyword)) p resume)
    /\ forall (r : response KArticles) (l : list article) (p' : page),
         ok r = true -> json_body r = Json l ->
         exists resume',
           resume (Resolved r) p' = AwaitBody p' resume'
           /\ forall p'',
                resume' p'' = Return tt (show_articles keyword l p'')
                /\ list_of keyword l (dom (show_articles keyword l p'') feed)
                /\ length (kids (dom (show_articles keyword l p'') feed)) = length l
                /\ shown (dom (show_articles keyword l p'') articleCount)
                   = Text (count_label (length l))
                /\ same_except [feed; articleCount] p'' (show_articles keyword l p'').
Proof.
  eexists; split; [intros p; reflexivity|].
  intros r l p' K B; cbn [rbind rcatch ret]; rewrite K; cbn [negb].
  eexists; split; [reflexivity|].
  intros p''.
  destruct (show_articles_feed keyword l p'') as [L C].
  split.
  - unfold json; rewrite B; cbn [rbind rcatch ret].
    unfold bind, act; cbn [rbind].
    unfold show_articles.
    destruct (length l =? 0); cbn [rbind rcatch]; [reflexivity|].
    change (fun (a : article) (p : page) => Return tt (appendChild feed (renderCard a) p))
      with (fun a => act (appendChild feed (renderCard a))).
    rewrite forEach_append; reflexivity.
  - split; [exact L|]. split.
    + destruct l as [|a l]; unfold list_of in L; destruct L as [_ Kd]; rewrite Kd;
        [reflexivity | rewrite length_map; reflexivity].
    + split; [exact C | apply show_articles_frame].
Qed.

Lemma loadArticles_success_renders_witness :
  exists resume resume',
    loadArticles (host := plain_host) (lit "ai") page0
    = AwaitFetch KArticles (get (lit "/api/articles?q=ai")) page0 resume
    /\ resume (Resolved (@Build_response KArticles 201 (Json [titled "A"; titled "B"])))
         page0 = AwaitBody page0 resume'
    /\ length (kids (dom (show_articles (host := plain_host) (lit "ai")
                           [titled "A"; titled "B"] page0) feed)) = 2
    /\ shown (dom (show_articles (host := plain_host) (lit "ai")
                     [titled "A"; titled "B"] page0) articleCount)
       = Text (lit "2 articles").
Proof.
  destruct (@loadArticles_success_renders plain_host (lit "ai")) as [resume [E H]].
  destruct (H (@Build_response KArticles 201 (Json [titled "A"; titled "B"]))
              [titled "A"; titled "B"] page0 eq_refl eq_refl) as [resume' [R F]].
  destruct (F page0) as (_ & _ & Ln & C & _).
  exists resume, resume'.
  split; [apply E|]. split; [exact R|]. split; [exact Ln | exact C].
Defined.

(** X4.  A load that is answered with a success status and a body that
    is not JSON ends like a failed load: the article list is replaced by
    the error message with the parser's message, and the count label and
    every other element stay as they were. *)
Theorem loadArticles_bad_json {host : Host} (keyword : jsstring) (p : page) :
  exists resume,
    loadArticles keyword p
    = AwaitFetch KArticles (get (articles_url keyword)) p resume
    /\ forall (r : response KArticles) (m : jsstring) (p' : page),
         ok r = true -> json_body r = SyntaxError m ->
         exists resume',
           resume (Resolved r) p' = AwaitBody p' resume'
           /\ forall p'',
                resume' p'' = Return tt (set_innerHTML feed (error_markup m) p'')
                /\ same_except [feed] p'' (set_innerHTML feed (error_markup m) p'').
Proof.
  eexists; split; [reflexivity|].
  intros r m p' K B; cbn [rbind rcatch ret]; rewrite K; cbn [negb].
  eexists; split; [reflexivity|].
  intros p''; split.
  - unfold json; rewrite B; reflexivity.
  - intros e N; unfold set_innerHTML, set_shown, with_dom; cbn [dom].
    apply upd_other; intros <-; apply N; left; reflexivity.
Qed.

Lemma loadArticles_bad_json_witness :
  exists resume resume',
    loadArticles (host := plain_host) [] page0
    = AwaitFetch KArticles (get (lit "/api/articles")) page0 resume
    /\ resume (Resolved (@Build_response KArticles 200 (SyntaxError (lit "Unexpected token"))))
         page0 = AwaitBody page0 resume'
    /\ resume' (set_textContent articleCount (lit "3 articles") page0)
       = Return tt (set_innerHTML feed (error_markup (lit "Unexpected token"))
                      (set_textContent articleCount (lit "3 articles") page0)).
Proof.
  destruct (@loadArticles_bad_json plain_host [] page0) as [resume [E H]].
  destruct (H (@Build_response KArticles 200 (SyntaxError (lit "Unexpected token")))
              (lit "Unexpected token") page0 eq_refl eq_refl) as [resume' [R F]].
  exists resume, resume'.
  split; [exact E|]. split; [exact R|].
  exact (proj1 (F (set_textContent articleCount (lit "3 articles") page0))).
Defined.

(** ** The status line *)

(** X5.  [updateStatus] sends one request and never looks at the status
    of the answer: the status line is decided by the body alone.  A body
    with [last_fetched] gives the time of the last update, a body without
    it (the error body of a failed request included) gives the
    not-yet-fetched message, and a rejected request or a body that is not
    JSON gives the unavailable message.  Nothing but the status line
    changes. *)
Theorem updateStatus_outcomes {host : Host} (p : page) :
  exists resume,
    updateStatus p = AwaitFetch KStatus (get (lit "/api/status")) p resume
    /\ (forall m p',
          resume (Rejected m) p'
          = Return tt (set_textContent statusText (lit "Status unavailable.") p'))
    /\ (forall (r : response KStatus) p',
          exists resume',
            resume (Resolved r) p' = AwaitBody p' resume'
            /\ forall p'',
                 resume' p''
                 = Return tt (set_textContent statusText (status_line (json_body r)) p''))
    /\ forall text q, same_except [statusText] q (set_textContent statusText text q).
Proof.
  eexists; split; [reflexivity|].
  split; [intros m p'; reflexivity|].
  split.
  - intros r p'; eexists; split; [reflexivity|].
    intros p''; unfold json, status_line.
    destruct (json_body r) as [data|m]; cbn [rbind rcatch ret throw]; [|reflexivity].
    destruct (truthy_opt data); reflexivity.
  - intros text q e N; unfold set_textContent, set_shown, with_dom; cbn [dom].
    apply upd_other; intros <-; apply N; left; reflexivity.
Qed.

(** ** The timer table *)

Lemma NoDup_map_filter {A B} (f : A -> B) (g : A -> bool) (l : list A) :
  NoDup (map f l) -> NoDup (map f (filter g l)).
Proof.
  induction l as [|a l IH]; cbn [map filter]; intros N; [exact N|].
  inversion N as [|x xs Nin Nd]; subst.
  destruct (g a); cbn [map]; [|apply IH, Nd].
  constructor; [|apply IH, Nd].
  intros I; apply Nin; apply in_map_iff in I; destruct I as [y [E Iy]].
  apply in_map_iff; exists y; split; [exact E|].
  apply filter_In in Iy; apply Iy.
Qed.

Lemma same_handle_short (l : list timer) (h : nat) :
  NoDup (map handle l) -> (forall t, In t l -> handle t = h) -> length l <= 1.
Proof.
  destruct l as [|a [|b l]]; cbn [length]; intros N H; try lia.
  exfalso; inversion N as [|x xs Nin _]; subst; apply Nin; left.
  rewrite (H a), (H b); [reflexivity | right; left; reflexivity | left; reflexivity].
Qed.

Lemma tidy_at_most_one (p : page) :
  timers_tidy p ->
  length (filter is_search (timers p)) <= 1
  /\ length (filter (fun t => negb (is_search t)) (timers p)) <= 1.
Proof.
  intros (_ & _ & _ & N & O & V); split.
  - destruct (searchDebounce p) as [h|] eqn:D.
    + apply (@same_handle_short _ h); [apply NoDup_map_filter, N|].
      intros t I; apply filter_In in I; destruct I as [I S].
      unfold is_search in S; destruct (task t) eqn:Tt; [|discriminate].
      specialize (O t I Tt); congruence.
    + destruct (filter is_search (timers p)) as [|t l] eqn:E; [cbn; lia|].
      assert (I : In t (filter is_search (timers p))) by (rewrite E; left; reflexivity).
      apply filter_In in I; destruct I as [I S].
      unfold is_search in S; destruct (task t) eqn:Tt; [|discriminate].
      specialize (O t I Tt); congruence.
  - destruct (autoRefreshTimer p) as [h|] eqn:D.
    + apply (@same_handle_short _ h); [apply NoDup_map_filter, N|].
      intros t I; apply filter_In in I; destruct I as [I S].
      unfold is_search in S; destruct (task t) eqn:Tt; [discriminate|].
      specialize (V t I Tt); congruence.
    + destruct (filter (fun t => negb (is_search t)) (timers p)) as [|t l] eqn:E;
        [cbn; lia|].
      assert (I : In t (filter (fun t => negb (is_search t)) (timers p)))
        by (rewrite E; left; reflexivity).
      apply filter_In in I; destruct I as [I S].
      unfold is_search in S; destruct (task t) eqn:Tt; [discriminate|].
      specialize (V t I Tt); congruence.
Qed.

Lemma tidy_with_dom f (p : page) : timers_tidy p -> timers_tidy (with_dom f p).
Proof. intros H; exact H. Qed.

Lemma tidy_elapse dt (p : page) : timers_tidy p -> timers_tidy (elapse dt p).
Proof. intros H; exact H. Qed.

Lemma tidy_clear (h : option nat) (p : page) :
  timers_tidy p -> timers_tidy (clearTimer h p).
Proof.
  intros (F & VF & VA & N & O & V); destruct h as [n|];
    [|repeat split; assumption || apply VF].
  split; [intros t It; apply filter_In in It; apply (F t), It|].
  split; [exact VF|]. split; [exact VA|].
  split; [apply NoDup_map_filter, N|].
  split; intros t It; apply filter_In in It; [apply (O t) | apply (V t)]; apply It.
Qed.

Lemma NoDup_handles_snoc (l : list timer) (t : timer) :
  NoDup (map handle l) -> (forall x, In x l -> handle x < handle t) ->
  NoDup (map handle (l ++ [t])).
Proof.
  intros N F; rewrite map_app; cbn [map].
  apply NoDup_app; [exact N | repeat constructor; intros [] |].
  intros h I [<-|[]]; apply in_map_iff in I; destruct I as [x [E Ix]].
  specialize (F x Ix); lia.
Qed.

Lemma filter_none {A} (f : A -> bool) (l : list A) :
  (forall x, In x l -> f x = false) -> filter f l = [].
Proof.
  induction l as [|a l IH]; intros H; [reflexivity|]; cbn [filter].
  rewrite (H a (or_introl eq_refl)); apply IH; intros x I; apply H; right; exact I.
Qed.

Lemma filter_filter_keep {A} (f g : A -> bool) (l : list A) :
  (forall x, In x l -> f x = true -> g x = true) ->
  filter f (filter g l) = filter f l.
Proof.
  induction l as [|a l IH]; intros H; [reflexivity|]; cbn [filter].
  assert (IH' : filter f (filter g l) = filter f l)
    by (apply IH; intros x I; apply H; right; exact I).
  destruct (g a) eqn:G; cbn [filter].
  - rewrite IH'; reflexivity.
  - destruct (f a) eqn:Fa; [|exact IH'].
    rewrite (H a (or_introl eq_refl) Fa) in G; discriminate.
Qed.

(** After [clearTimeout(h)] with the handle of a kind of timer, no timer
    of that kind is left. *)
Lemma clear_search_none (p : page) :
  one_debounce p ->
  filter is_search (timers (clearTimer (searchDebounce p) p)) = [].
Proof.
  intros O; apply filter_none; intros t It.
  unfold is_search; destruct (task t) eqn:Tt; [|reflexivity]; exfalso.
  destruct (searchDebounce p) as [h|] eqn:D; cbn [clearTimer timers] in It.
  - apply filter_In in It; destruct It as [It Ne].
    specialize (O t It Tt); rewrite D in O; injection O as ->.
    rewrite Nat.eqb_refl in Ne; discriminate.
  - specialize (O t It Tt); rewrite D in O; discriminate.
Qed.

Lemma clear_interval_none (p : page) :
  one_interval p ->
  filter (fun t => negb (is_search t)) (timers (clearTimer (autoRefreshTimer p) p)) = [].
Proof.
  intros V; apply filter_none; intros t It.
  unfold is_search; destruct (task t) eqn:Tt; [reflexivity|]; exfalso.
  destruct (autoRefreshTimer p) as [h|] eqn:D; cbn [clearTimer timers] in It.
  - apply filter_In in It; destruct It as [It Ne].
    specialize (V t It Tt); rewrite D in V; injection V as ->.
    rewrite Nat.eqb_refl in Ne; discriminate.
  - specialize (V t It Tt); rewrite D in V; discriminate.
Qed.

Lemma clear_interval_keeps_search (p : page) :
  one_debounce p -> vars_apart p ->
  filter is_search (timers (clearTimer (autoRefreshTimer p) p))
  = filter is_search (timers p).
Proof.
  intros O VA; destruct (autoRefreshTimer p) as [h|] eqn:D; [|reflexivity].
  cbn [clearTimer timers]; apply filter_filter_keep; intros t It S.
  unfold is_search in S; destruct (task t) eqn:Tt; [|discriminate].
  specialize (O t It Tt).
  destruct (Nat.eqb_spec (handle t) h) as [E|_]; [|reflexivity].
  exfalso; apply (VA _ O); rewrite D, E; reflexivity.
Qed.

Lemma clear_search_keeps_interval (p : page) :
  one_interval p -> vars_apart p ->
  filter (fun t => negb (is_search t)) (timers (clearTimer (searchDebounce p) p))
  = filter (fun t => negb (is_search t)) (timers p).
Proof.
  intros V VA; destruct (searchDebounce p) as [h|] eqn:D; [|reflexivity].
  cbn [clearTimer timers]; apply filter_filter_keep; intros t It S.
  unfold is_search in S; destruct (task t) eqn:Tt; [discriminate|].
  specialize (V t It Tt).
  destruct (Nat.eqb_spec (handle t) h) as [E|_]; [|reflexivity].
  exfalso; apply (VA h D); rewrite V, E; reflexivity.
Qed.

Lemma clear_next_handle (h : option nat) (p : page) :
  next_handle (clearTimer h p) = next_handle p
  /\ clock (clearTimer h p) = clock p
  /\ searchDebounce (clearTimer h p) = searchDebounce p
  /\ autoRefreshTimer (clearTimer h p) = autoRefreshTimer p.
Proof. destruct h; repeat split; reflexivity. Qed.

Lemma tidy_onSearchInput (p : page) : timers_tidy p -> timers_tidy (onSearchInput p).
Proof.
  intros T; pose proof (tidy_clear (searchDebounce p) T) as (F & VF & VA & N & O & V).
  destruct T as (_ & _ & _ & _ & O0 & _).
  pose proof (clear_search_none O0) as NS.
  unfold onSearchInput; set (p1 := clearTimer (searchDebounce p) p) in *.
  split; [|split; [|split; [|split; [|split]]]].
  - intros t It; cbn in It; apply in_app_or in It; destruct It as [It|[<-|[]]];
      [specialize (F t It); cbn; lia | cbn; lia].
  - split; intros h E; cbn in E |- *; [injection E as <-; lia|].
    apply (proj2 VF) in E; lia.
  - intros h E A; cbn in E, A; injection E as <-.
    apply (proj2 VF) in A; lia.
  - apply (@NoDup_handles_snoc (timers p1)); [exact N|].
    intros x Ix; apply F, Ix.
  - intros t It Tt; cbn in It; apply in_app_or in It; destruct It as [It|[<-|[]]];
      [|reflexivity].
    exfalso; assert (I : In t (filter is_search (timers p1)))
      by (apply filter_In; split; [exact It | unfold is_search; rewrite Tt; reflexivity]).
    rewrite NS in I; destruct I.
  - intros t It Tt; cbn in It; apply in_app_or in It; destruct It as [It|[<-|[]]];
      [exact (V t It Tt) | discriminate].
Qed.

Lemma tidy_scheduleAutoRefresh (p : page) :
  timers_tidy p -> timers_tidy (scheduleAutoRefresh p).
Proof.
  intros T; pose proof (tidy_clear (autoRefreshTimer p) T) as (F & VF & VA & N & O & V).
  destruct T as (_ & _ & _ & _ & _ & V0).
  pose proof (clear_interval_none V0) as NS.
  unfold scheduleAutoRefresh; set (p1 := clearTimer (autoRefreshTimer p) p) in *.
  split; [|split; [|split; [|split; [|split]]]].
  - intros t It; cbn in It; apply in_app_or in It; destruct It as [It|[<-|[]]];
      [specialize (F t It); cbn; lia | cbn; lia].
  - split; intros h E; cbn in E |- *; [|injection E as <-; lia].
    apply (proj1 VF) in E; lia.
  - intros h E A; cbn in E, A; injection A as <-.
    apply (proj1 VF) in E; lia.
  - apply (@NoDup_handles_snoc (timers p1)); [exact N|].
    intros x Ix; apply F, Ix.
  - intros t It Tt; cbn in It; apply in_app_or in It; destruct It as [It|[<-|[]]];
      [exact (O t It Tt) | discriminate].
  - intros t It Tt; cbn in It; apply in_app_or in It; destruct It as [It|[<-|[]]];
      [|reflexivity].
    exfalso; assert (I : In t (filter (fun t => negb (is_search t)) (timers p1)))
      by (apply filter_In; split; [exact It | unfold is_search; rewrite Tt; reflexivity]).
    rewrite NS in I; destruct I.
Qed.

Lemma tidy_fired (t : timer) (p : page) : timers_tidy p -> timers_tidy (fired t p).
Proof.
  intros (F & VF & VA & N & O & V); unfold fired; destruct (every t) as [period|].
  - set (g := fun x : timer =>
                if handle x =? handle t
                then {| handle := handle x; due := (due x + period)%N;
                        task := task x; every := every x |}
                else x).
    assert (Gh : forall x, handle (g x) = handle x)
      by (intros x; unfold g; destruct (handle x =? handle t); reflexivity).
    assert (Gt : forall x, task (g x) = task x)
      by (intros x; unfold g; destruct (handle x =? handle t); reflexivity).
    split; [|split; [|split; [|split; [|split]]]].
    + intros x Ix; cbn in Ix; apply in_map_iff in Ix; destruct Ix as [y [<- Iy]].
      rewrite Gh; apply (F y Iy).
    + exact VF.
    + exact VA.
    + cbn [timers]; rewrite map_map.
      rewrite (map_ext _ handle Gh); exact N.
    + intros x Ix Tx; cbn in Ix; apply in_map_iff in Ix; destruct Ix as [y [<- Iy]].
      rewrite Gt in Tx; rewrite Gh; apply (O y Iy Tx).
    + intros x Ix Tx; cbn in Ix; apply in_map_iff in Ix; destruct Ix as [y [<- Iy]].
      rewrite Gt in Tx; rewrite Gh; apply (V y Iy Tx).
  - split; [intros x Ix; cbn in Ix; apply filter_In in Ix; apply (F x), Ix|].
    split; [exact VF|]. split; [exact VA|].
    split; [apply NoDup_map_filter, N|].
    split; intros x Ix; cbn in Ix; apply filter_In in Ix;
      [apply (O x) | apply (V x)]; apply Ix.
Qed.

(** X6.  [scheduleAutoRefresh] leaves exactly one interval timer, the
    one it has just armed, due five minutes from now and repeating; the
    timer that was armed before is gone, and a pending search timer is not
    touched.  So calling it again re-arms and never adds a second
    timer. *)
Theorem scheduleAutoRefresh_single (p : page) :
  timers_tidy p ->
  timers_tidy (scheduleAutoRefresh p)
  /\ filter (fun t => negb (is_search t)) (timers (scheduleAutoRefresh p))
     = [interval_timer p]
  /\ autoRefreshTimer (scheduleAutoRefresh p) = Some (next_handle p)
  /\ filter is_search (timers (scheduleAutoRefresh p)) = filter is_search (timers p).
Proof.
  intros T; split; [apply tidy_scheduleAutoRefresh, T|].
  destruct T as (_ & _ & VA & _ & O & V).
  destruct (clear_next_handle (autoRefreshTimer p) p) as (Nh & Ck & _ & _).
  unfold scheduleAutoRefresh, set_autoRefreshTimer, addTimer;
    cbn [timers autoRefreshTimer].
  rewrite !filter_app, (clear_interval_none V), (clear_interval_keeps_search O VA).
  rewrite Nh, Ck; cbn [filter is_search task negb app].
  split; [reflexivity|]. split; [reflexivity|].
  rewrite app_nil_r; reflexivity.
Qed.

Lemma scheduleAutoRefresh_single_witness :
  let p := scheduleAutoRefresh (elapse 1000 page0) in
  filter (fun t => negb (is_search t))
    (timers (scheduleAutoRefresh (elapse 500 p)))
  = [{| handle := 1; due := 301500; task := AutoRefresh; every := Some 300000%N |}].
Proof.
  intro p.
  assert (T : timers_tidy (elapse 500 p)).
  { split; [intros t [<-|[]]; vm_compute; lia|].
    split; [split; intros h E; vm_compute in E; [discriminate | injection E as <-; vm_compute; lia]|].
    split; [intros h E; vm_compute in E; discriminate|].
    split; [vm_compute; repeat constructor; intros []|].
    split; intros t [<-|[]] Tt; [discriminate Tt | reflexivity]. }
  exact (proj1 (proj2 (@scheduleAutoRefresh_single (elapse 500 p) T))).
Defined.

(** ** What holds of the timers at every moment *)

Section Reachable.

Context {host : Host}.
Variable I : page -> Prop.
Hypothesis I_dom : forall f p, I p -> I (with_dom f p).
Hypothesis I_search : forall p, I p -> I (onSearchInput p).
Hypothesis I_schedule : forall p, I p -> I (scheduleAutoRefresh p).
Hypothesis I_fired : forall t p, I p -> I (fired t p).
Hypothesis I_elapse : forall dt p, I p -> I (elapse dt p).

Ltac kept :=
  repeat lazymatch goal with
    | H : akeeps _ ?m |- akeeps _ ?m => exact H
    | H : forall k, akeeps _ (?m k) |- akeeps _ (?m _) => apply H
    | |- akeeps _ (bind _ _) => apply akeeps_bind; [|intro]
    | |- akeeps _ (try_catch _ _) => apply akeeps_try_catch; [|intro]
    | |- akeeps _ (try_finally _ _) => apply akeeps_try_finally
    | |- akeeps _ (ret _) => apply akeeps_ret
    | |- akeeps _ (throw _) => apply akeeps_throw
    | |- akeeps _ (read _) => apply akeeps_read
    | |- akeeps _ (fetch _ _) => apply akeeps_fetch
    | |- akeeps _ (json _) => apply akeeps_json
    | |- akeeps _ (forEach _ _) => apply akeeps_forEach; intro
    | |- akeeps _ (if _ then _ else _) => apply akeeps_if
    | |- akeeps _ (act scheduleAutoRefresh) => apply akeeps_act; exact I_schedule
    | |- akeeps _ (act _) => apply akeeps_act; intros ? ?; apply I_dom; assumption
    end.

Lemma script_keeps :
  (forall kw, akeeps I (loadArticles kw))
  /\ akeeps I updateStatus /\ akeeps I loadCustomFeeds /\ akeeps I loadScrapedSites
  /\ akeeps I searchCallback /\ akeeps I autoRefreshCallback
  /\ akeeps I onRefreshClick /\ akeeps I onCheckFeedClick
  /\ akeeps I onSubmitFeedClick /\ akeeps I onSubmitSiteClick
  /\ (forall i id, akeeps I (onDeleteFeedClick i id))
  /\ (forall i id, akeeps I (onDeleteSiteClick i id))
  /\ akeeps I init.
Proof.
  assert (L : forall kw, akeeps I (loadArticles kw))
    by (intros kw; unfold loadArticles; kept).
  assert (U : akeeps I updateStatus) by (unfold updateStatus; kept).
  assert (LF : akeeps I loadCustomFeeds) by (unfold loadCustomFeeds; kept).
  assert (LS : akeeps I loadScrapedSites) by (unfold loadScrapedSites; kept).
  repeat match goal with |- _ /\ _ => split end;
    try match goal with |- forall i id, _ => intros i id end;
    try assumption.
  - unfold searchCallback; kept.
  - unfold autoRefreshCallback; kept.
  - unfold onRefreshClick; kept.
  - unfold onCheckFeedClick; kept.
  - unfold onSubmitFeedClick; kept.
  - unfold onSubmitSiteClick; kept.
  - unfold onDeleteFeedClick; kept.
  - unfold onDeleteSiteClick; kept.
  - unfold init; kept.
Qed.

Lemma steady_settle (r : res unit) (w : world) :
  keeps I r ->
  (forall t x, In (t, x) (inflight w) -> keeps_waiting I x) ->
  steady I (settle r w).
Proof.
  intros K W; destruct r as [a p|e p|k r p c|p c]; cbn [settle keeps] in *.
  - split; [exact K | exact W].
  - split; [exact K | exact W].
  - destruct K as [Ip K]; split; [exact Ip|].
    intros t x In1; cbn in In1; apply in_app_or in In1; destruct In1 as [In1|[In1|[]]];
      [exact (W t x In1) | injection In1 as _ <-; exact K].
  - destruct K as [Ip K]; split; [exact Ip|].
    intros t x In1; cbn in In1; apply in_app_or in In1; destruct In1 as [In1|[In1|[]]];
      [exact (W t x In1) | injection In1 as _ <-; exact K].
Qed.

Lemma steady_spawn (m : async unit) (w : world) :
  akeeps I m -> steady I w -> steady I (spawn m w).
Proof. intros M [T W]; apply steady_settle; [apply M, T | exact W]. Qed.

Lemma steady_on_page (f : page -> page) (w : world) :
  (forall p, I p -> I (f p)) -> steady I w -> steady I (on_page f w).
Proof. intros Hf [T W]; split; [apply Hf, T | exact W]. Qed.

Lemma I_classList_add e c p : I p -> I (classList_add e c p).
Proof. intros H; unfold classList_add; apply I_dom, H. Qed.

Lemma I_classList_remove e c p : I p -> I (classList_remove e c p).
Proof. intros H; unfold classList_remove; apply I_dom, H. Qed.

Lemma steady_step (ev : event) (w : world) : steady I w -> steady I (step ev w).
Proof.
  destruct script_keeps as (KL & KU & KF & KS & K1 & K2 & K3 & K4 & K5 & K6 & K7 & K8 & _).
  intros S; destruct ev as [e v|e|l i|key|dt|h|t k o|t]; cbn [step].
  - destruct (el_eqb e searchInput).
    + apply steady_on_page; [exact I_search|].
      apply steady_on_page; [intros p Hp; apply I_dom, Hp | exact S].
    + apply steady_on_page; [intros p Hp; apply I_dom, Hp | exact S].
  - unfold click; destruct (disabled (dom (pg w) e)); [exact S|].
    destruct e; try exact S; try (apply steady_spawn; assumption).
    + unfold openModal; apply steady_spawn; [exact KS|].
      apply steady_spawn; [exact KF|].
      apply steady_on_page; [|exact S].
      intros p Hp; unfold openModal_reset, statements; cbn [fold_left].
      repeat apply I_dom; exact Hp.
    + apply steady_on_page; [|exact S].
      intros p Hp; apply I_classList_add, Hp.
    + apply steady_on_page; [|exact S].
      intros p Hp; apply I_classList_add, Hp.
    + apply steady_on_page; [|exact S].
      intros p Hp; unfold onTabClick; cbv zeta.
      repeat first [apply I_classList_add | apply I_classList_remove]; exact Hp.
  - unfold clickDelete.
    destruct (nth_error (buttons (dom (pg w) l)) i) as [b|]; [|exact S].
    destruct (btn_disabled b); [exact S|].
    destruct l; try exact S; apply steady_spawn; auto.
  - destruct (str_eqb key (lit "Escape")); [|exact S].
    apply steady_on_page; [|exact S].
    intros p Hp; apply I_classList_add, Hp.
  - apply steady_on_page; [apply I_elapse | exact S].
  - destruct (find_timer h (pg w)) as [tm|]; [|exact S].
    destruct (due tm <=? clock (pg w))%N; [|exact S].
    assert (S' : steady I (on_page (fired tm) w))
      by (apply steady_on_page; [apply I_fired | exact S]).
    destruct (task tm); apply steady_spawn; assumption.
  - destruct (take t (inflight w)) as [[[k' c|c] rest]|] eqn:E; try exact S.
    destruct (coerce k' o) as [o'|]; [|exact S].
    destruct S as (T & W); destruct (take_some _ _ E) as [In1 Sub].
    apply steady_settle.
    + exact (W t _ In1 o' (pg w) T).
    + intros t' x In'; apply (W t' x), Sub, In'.
  - destruct (take t (inflight w)) as [[[k' c|c] rest]|] eqn:E; try exact S.
    destruct S as (T & W); destruct (take_some _ _ E) as [In1 Sub].
    apply steady_settle.
    + exact (W t _ In1 (pg w) T).
    + intros t' x In'; apply (W t' x), Sub, In'.
Qed.

Lemma steady_reachable (p : page) (evs : list event) :
  I p -> I (pg (run evs (boot p))).
Proof.
  intros Ip.
  assert (B : steady I (boot p)).
  { destruct script_keeps as (_ & _ & _ & _ & _ & _ & _ & _ & _ & _ & _ & _ & KI).
    apply steady_spawn; [exact KI|].
    split; [exact Ip | intros t x []]. }
  revert B; generalize (boot p); induction evs as [|ev evs IH]; intros w S;
    [exact (proj1 S)|].
  apply IH, steady_step, S.
Qed.

End Reachable.

(** X7.  At every moment of a session that starts on a page without
    timers, there is at most one search timer and at most one
    auto-refresh timer, whatever the user does, whenever the timers run
    and however the network answers. *)
Theorem at_most_one_timer_each {host : Host} (p : page) (evs : list event) :
  timers p = [] -> searchDebounce p = None -> autoRefreshTimer p = None ->
  let q := pg (run evs (boot p)) in
  length (filter is_search (timers q)) <= 1
  /\ length (filter (fun t => negb (is_search t)) (timers q)) <= 1.
Proof.
  intros E D A; cbv zeta; apply tidy_at_most_one.
  apply (@steady_reachable host timers_tidy).
  - intros f q H; exact H.
  - exact tidy_onSearchInput.
  - exact tidy_scheduleAutoRefresh.
  - exact tidy_fired.
  - intros dt q H; exact H.
  - split; [intros t In1; rewrite E in In1; destruct In1|].
    split; [split; intros h Eh; congruence|].
    split; [intros h Eh; congruence|].
    split; [rewrite E; constructor|].
    split; intros t In1; rewrite E in In1; destruct In1.
Qed.

Lemma at_most_one_timer_each_witness :
  let q := pg (run (host := plain_host)
                 [Respond 0 KArticles (success KArticles []); BodyRead 1;
                  Respond 2 KStatus (success KStatus None); BodyRead 3;
                  Edit searchInput (lit "a"); Elapse 10; Edit searchInput (lit "ab")]
                 (boot (host := plain_host) page0)) in
  length (filter is_search (timers q)) <= 1
  /\ length (filter (fun t => negb (is_search t)) (timers q)) <= 1.
Proof.
  exact (@at_most_one_timer_each plain_host page0 _ eq_refl eq_refl eq_refl).
Defined.

(** ** The auto-refresh tick *)

Lemma updateStatus_asks {host : Host} (p : page) : reaches is_status (updateStatus p).
Proof. left; reflexivity. Qed.


(** X8.  Each tick of the auto-refresh, when the trimmed text of the
    search box is well-formed text, loads the articles for that keyword
    and then, whatever became of that load (answered, failed, or answered
    with a body that is not JSON), asks for the status: a failed load
    never keeps the status line from being refreshed. *)
Theorem autoRefresh_always_polls_status {host : Host} (p : page) :
  well_formed (keyword_now p) = true ->
  exists resume,
    autoRefreshCallback p
    = AwaitFetch KArticles (get (articles_url (keyword_now p))) p resume
    /\ forall o p', reaches is_status (resume o p').
Proof.
  intros _.
  eexists; split; [reflexivity|].
  intros o p'.
  pose proof (loadArticles_settles (keyword_now p) p) as S.
  unfold loadArticles, try_catch, bind, fetch in S; cbn [rbind rcatch settles] in S.
  apply reaches_rbind; [apply S|].
  intros [] q; apply updateStatus_asks.
Qed.

Lemma autoRefresh_always_polls_status_witness :
  let p := set_value searchInput (lit " gpu ") page0 in
  exists resume,
    autoRefreshCallback (host := plain_host) p
    = AwaitFetch KArticles (get (lit "/api/articles?q=gpu")) p resume
    /\ reaches is_status (resume (Rejected (lit "Failed to fetch")) p).
Proof.
  intro p.
  assert (W : well_formed (keyword_now p) = true) by (vm_compute; reflexivity).
  destruct (@autoRefresh_always_polls_status plain_host p W) as [resume [E R]].
  exists resume; split; [exact E | apply R].
Defined.

Lemma find_map_rearm (h : nat) (period : N) (l : list timer) (t : timer) :
  find (fun x => handle x =? h) l = Some t ->
  find (fun x => handle x =? h)
    (map (fun x => if handle x =? h
                   then {| handle := handle x; due := (due x + period)%N;
                           task := task x; every := every x |}
                   else x) l)
  = Some {| handle := handle t; due := (due t + period)%N;
            task := task t; every := every t |}.
Proof.
  induction l as [|a l IH]; cbn [find map]; [discriminate|].
  destruct (handle a =? h) eqn:E; cbn [handle]; rewrite E.
  - intros H; injection H as <-; reflexivity.
  - exact IH.
Qed.

Lemma find_timer_handle (h : nat) (p : page) (t : timer) :
  find_timer h p = Some t -> handle t = h.
Proof.
  unfold find_timer; intros F; apply find_some in F.
  apply Nat.eqb_eq, F.
Qed.

(** X9.  When the browser runs the interval timer once it is due, and
    the trimmed text of the search box is well-formed text at that
    moment, one request is sent: the article load for that text; nothing
    is left unhandled.  The timer stays in the table, due one period
    later, and the tick adds and removes no timer. *)
Theorem interval_tick {host : Host} (w : world) (h : nat) (t : timer) (period : N) :
  find_timer h (pg w) = Some t ->
  task t = AutoRefresh -> every t = Some period ->
  (due t <= clock (pg w))%N ->
  well_formed (trim (value (dom (pg w) searchInput))) = true ->
  let w' := step (Fire h) w in
  sent w' = sent w ++ [get (articles_url (trim (value (dom (pg w) searchInput))))]
  /\ find_timer h (pg w')
     = Some {| handle := handle t; due := (due t + period)%N;
               task := task t; every := every t |}
  /\ length (timers (pg w')) = length (timers (pg w))
  /\ unhandled w' = unhandled w.
Proof.
  intros F Tt Ev D _; cbv zeta.
  pose proof (find_timer_handle _ _ F) as Hh.
  unfold step; rewrite F.
  destruct (N.leb_spec (due t) (clock (pg w))) as [_|L]; [|lia].
  rewrite Tt; unfold run_job, spawn, autoRefreshCallback, bind, read; cbn [rbind].
  unfold loadArticles, try_catch, bind, fetch; cbn [rbind rcatch settle sent unhandled pg].
  split; [reflexivity|].
  split; [|split; [|reflexivity]].
  - unfold find_timer, on_page, fired; cbn [pg timers]; rewrite Ev, Hh.
    unfold find_timer in F; rewrite (@find_map_rearm h period _ t F), ?Hh, ?Tt, ?Ev.
    reflexivity.
  - unfold on_page, fired; cbn [pg timers]; rewrite Ev; apply length_map.
Qed.

Lemma interval_tick_witness :
  let w := on_page (elapse 300000)
             (run (host := plain_host)
                [Respond 0 KArticles (success KArticles []); BodyRead 1;
                 Respond 2 KStatus (success KStatus None); BodyRead 3;
                 Edit searchInput (lit " gpu ")]
                (boot (host := plain_host) page0)) in
  let w' := step (host := plain_host) (Fire 0) w in
  map url (sent w') = map url (sent w) ++ [lit "/api/articles?q=gpu"]
  /\ find_timer 0 (pg w')
     = Some {| handle := 0; due := 600000; task := AutoRefresh; every := Some 300000%N |}.
Proof.
  intros w w'.
  destruct (@interval_tick plain_host w 0
              {| handle := 0; due := 300000; task := AutoRefresh; every := Some 300000%N |}
              300000 eq_refl eq_refl eq_refl)
    as (S & F & _).
  - vm_compute; discriminate.
  - vm_compute; reflexivity.
  - split; [|exact F].
    unfold w'; rewrite S, map_app; reflexivity.
Defined.

(** ** Deleting a source that the backend answers *)




(** ** Checking a feed URL *)

Lemma same_except_refl (es : list el) (p : page) : same_except es p p.
Proof. intros e _; reflexivity. Qed.

Lemma same_except_trans (es : list el) (p q r : page) :
  same_except es p q -> same_except es q r -> same_except es p r.
Proof. intros A B e N; rewrite (B e N); apply A, N. Qed.

Lemma same_except_with_dom (es : list el) (e : el) f (p : page) :
  In e es -> same_except es p (with_dom (upd e f) p).
Proof.
  intros I e' N; cbn [with_dom dom]; apply upd_other; intros <-; exact (N I).
Qed.

Ltac frame :=
  repeat first
    [ apply same_except_refl
    | eapply same_except_trans;
        [|apply same_except_with_dom; cbn [In]; tauto] ].



(** X12.  A check that succeeds shows the number of entries found with
    the ok class and enables the button again.  It puts the suggested
    title into the name field only when the answer has a title and the
    name field is empty at that moment: a name the user has typed, even
    while the check was running, is never overwritten. *)
Theorem check_success_autofill {host : Host} (p : page) :
  truthy (trim (value (dom p feedUrlInput))) = true ->
  exists resume,
    onCheckFeedClick p
    = AwaitFetch KPreview
        (get (lit "/api/feeds/preview?url="
              ++ encodeURIComponent (trim (value (dom p feedUrlInput)))))
        (checking p) resume
    /\ forall (r : response KPreview) (data : preview_reply) p',
         ok r = true -> json_body r = Json data ->
         exists resume',
           resume (Resolved r) p' = AwaitBody p' resume'
           /\ forall p'',
                resume' p'' = Return tt (check_passed data p'')
                /\ classes (dom (check_passed data p'') feedUrlStatus)
                   = [lit "field-hint"; lit "ok"]
                /\ disabled (dom (check_passed data p'') checkFeedBtn) = false
                /\ (truthy (value (dom p'' feedNameInput)) = true ->
                    value (dom (check_passed data p'') feedNameInput)
                    = value (dom p'' feedNameInput))
                /\ (value (dom p'' feedNameInput) = [] ->
                    truthy_opt (pr_title data) = true ->
                    Some (value (dom (check_passed data p'') feedNameInput))
                    = pr_title data)
                /\ same_except [feedUrlStatus; checkFeedBtn; feedNameInput] p''
                     (check_passed data p'').
Proof.
  intros U; unfold onCheckFeedClick, bind, read; cbn [rbind]; rewrite U; cbn [negb].
  eexists; split; [reflexivity|].
  intros r data p' K B; eexists; split; [reflexivity|].
  intros p''; split; [|split; [|split; [|split; [|split]]]].
  - unfold json; rewrite B; cbn [rbind rcatch rfinally ret]; rewrite K; cbn [negb].
    unfold act; cbn [rbind rcatch rfinally]. unfold check_passed; cbv zeta.
    change (value (dom (set_textContent feedUrlStatus
               (check_mark ++ lit " Valid feed " ++ em_dash ++ lit " "
                ++ show_num (pr_entry_count data) ++ lit " articles found")
               (set_classes feedUrlStatus [lit "field-hint"; lit "ok"] p''))
             feedNameInput))
      with (value (dom p'' feedNameInput)).
    destruct (truthy_opt (pr_title data) && negb (truthy (value (dom p'' feedNameInput))));
      reflexivity.
  - unfold check_passed; cbv zeta.
    destruct (truthy_opt (pr_title data) && negb (truthy (value (dom p'' feedNameInput))));
      reflexivity.
  - unfold check_passed; cbv zeta.
    destruct (truthy_opt (pr_title data) && negb (truthy (value (dom p'' feedNameInput))));
      reflexivity.
  - intros T; unfold check_passed; cbv zeta; rewrite T, andb_false_r; reflexivity.
  - intros E T; unfold check_passed; cbv zeta; rewrite E, T; cbn [truthy negb andb].
    destruct (pr_title data) as [s|]; [|discriminate T].
    cbn [truthy_opt] in T; unfold or_else; rewrite T; reflexivity.
  - unfold check_passed; cbv zeta.
    destruct (truthy_opt (pr_title data) && negb (truthy (value (dom p'' feedNameInput))));
      unfold set_disabled, set_textContent, set_shown, set_classes, set_value; frame.
Qed.

Lemma check_success_autofill_witness :
  let p := set_value feedUrlInput (lit "http://x/feed") page0 in
  let data := {| pr_error := None; pr_title := Some (lit "X News");
                 pr_entry_count := Some 12 |} in
  let typed := set_value feedNameInput (lit "Mine") (checking p) in
  value (dom (check_passed data typed) feedNameInput) = lit "Mine"
  /\ value (dom (check_passed data (checking p)) feedNameInput) = lit "X News".
Proof.
  intros p data typed.
  destruct (@check_success_autofill plain_host p eq_refl) as [resume [_ H]].
  destruct (H (@Build_response KPreview 200 (Json data)) data (checking p)
              eq_refl eq_refl) as [resume' [_ F]].
  destruct (F typed) as (_ & _ & _ & Keep & _).
  destruct (F (checking p)) as (_ & _ & _ & _ & Fill & _).
  split; [exact (Keep eq_refl)|].
  exact (f_equal (fun o => or_else o []) (Fill eq_refl eq_refl)).
Defined.

(** ** Adding a source *)



(** X13.  A click on Add Feed, or on Add Website, while the URL field is
    empty or all white space is settled on the page: no request is sent,
    the status line of that form asks for a URL, and nothing else
    changes. *)
Theorem submit_blank_url {host : Host} (w : world) :
  (spaces (value (dom (pg w) feedUrlInput)) ->
   disabled (dom (pg w) submitFeedBtn) = false ->
   step (Click submitFeedBtn) w
   = on_page (set_textContent submitStatus (lit "Please enter a URL.")) w)
  /\ (spaces (value (dom (pg w) siteUrlInput)) ->
      disabled (dom (pg w) submitSiteBtn) = false ->
      step (Click submitSiteBtn) w
      = on_page (set_textContent submitSiteStatus (lit "Please enter a URL.")) w)
  /\ forall e text, sent (on_page (set_textContent e text) w) = sent w
                    /\ inflight (on_page (set_textContent e text) w) = inflight w
                    /\ same_except [e] (pg w) (pg (on_page (set_textContent e text) w)).
Proof.
  split; [|split].
  - intros B E; unfold step, click; rewrite E.
    unfold spawn, onSubmitFeedClick, bind, read; cbn [rbind].
    rewrite (trim_spaces B); reflexivity.
  - intros B E; unfold step, click; rewrite E.
    unfold spawn, onSubmitSiteClick, bind, read; cbn [rbind].
    rewrite (trim_spaces B); reflexivity.
  - intros e text; split; [reflexivity|]; split; [reflexivity|].
    unfold on_page, set_textContent, set_shown; cbn [pg]; frame.
Qed.

Lemma submit_blank_url_witness :
  let w := on_page (set_value feedUrlInput (lit "  ")) world0 in
  let w' := step (host := plain_host) (Click submitFeedBtn) w in
  sent w' = [] /\ shown (dom (pg w') submitStatus) = Text (lit "Please enter a URL.").
Proof.
  intros w w'.
  assert (B : spaces (value (dom (pg w) feedUrlInput)))
    by (vm_compute; repeat constructor).
  unfold w'; rewrite (proj1 (@submit_blank_url plain_host w) B eq_refl).
  split; reflexivity.
Defined.

(** X14.  An add of a feed whose URL is not blank sends one request with
    the trimmed URL, the trimmed name and the category.  When the request
    is rejected, or the body is not JSON, or the status is not a success,
    the status line shows the reason with the error class, the button is
    back at rest, nothing more is sent, and the fields of the form keep
    what they held. *)
Theorem submit_feed_failure_keeps_form {host : Host} (p : page) :
  truthy (trim (value (dom p feedUrlInput))) = true ->
  exists resume,
    onSubmitFeedClick p
    = AwaitFetch KAdded (post (lit "/api/feeds") (Some (feed_form p)))
        (adding_feed p) resume
    /\ (forall m p', resume (Rejected m) p' = Return tt (add_feed_failed m p'))
    /\ (forall (r : response KAdded) p',
          exists resume',
            resume (Resolved r) p' = AwaitBody p' resume'
            /\ forall reason p'',
                 reply_failure r ar_error = Some reason ->
                 resume' p'' = Return tt (add_feed_failed reason p''))
    /\ forall reason q,
         shown (dom (add_feed_failed reason q) submitStatus)
         = Text (ballot_x ++ lit " " ++ reason)
         /\ classes (dom (add_feed_failed reason q) submitStatus)
            = [lit "field-hint"; lit "err"]
         /\ disabled (dom (add_feed_failed reason q) submitFeedBtn) = false
         /\ shown (dom (add_feed_failed reason q) submitFeedBtn) = Text (lit "Add Feed")
         /\ same_except [submitStatus; submitFeedBtn] q (add_feed_failed reason q).
Proof.
  intros U; unfold onSubmitFeedClick, bind, read; cbn [rbind]; rewrite U; cbn [negb].
  eexists; split; [reflexivity|].
  split; [intros m p'; reflexivity|].
  split.
  - intros r p'; eexists; split; [reflexivity|].
    intros reason p'' F; unfold reply_failure in F; unfold json.
    destruct (json_body r) as [data|m]; cbn [rbind rcatch rfinally ret throw].
    + destruct (ok r); [discriminate|]; injection F as <-; reflexivity.
    + injection F as <-; reflexivity.
  - intros reason q; repeat split.
    unfold add_feed_failed, add_feed_rested, set_disabled, set_textContent, set_shown,
      set_classes; frame.
Qed.

(** X15.  The same for a site: one request with the trimmed URL, name
    and query and the category; on any failure the status line of the
    site form shows the reason, the button is back at rest, nothing more
    is sent and the fields keep what they held. *)
Theorem submit_site_failure_keeps_form {host : Host} (p : page) :
  truthy (trim (value (dom p siteUrlInput))) = true ->
  exists resume,
    onSubmitSiteClick p
    = AwaitFetch KAdded (post (lit "/api/sites") (Some (site_form p)))
        (adding_site p) resume
    /\ (forall m p', resume (Rejected m) p' = Return tt (add_site_failed m p'))
    /\ (forall (r : response KAdded) p',
          exists resume',
            resume (Resolved r) p' = AwaitBody p' resume'
            /\ forall reason p'',
                 reply_failure r ar_error = Some reason ->
                 resume' p'' = Return tt (add_site_failed reason p''))
    /\ forall reason q,
         shown (dom (add_site_failed reason q) submitSiteStatus)
         = Text (ballot_x ++ lit " " ++ reason)
         /\ classes (dom (add_site_failed reason q) submitSiteStatus)
            = [lit "field-hint"; lit "err"]
         /\ disabled (dom (add_site_failed reason q) submitSiteBtn) = false
         /\ shown (dom (add_site_failed reason q) submitSiteBtn) = Text (lit "Add Website")
         /\ same_except [submitSiteStatus; submitSiteBtn] q (add_site_failed reason q).
Proof.
  intros U; unfold onSubmitSiteClick, bind, read; cbn [rbind]; rewrite U; cbn [negb].
  eexists; split; [reflexivity|].
  split; [intros m p'; reflexivity|].
  split.
  - intros r p'; eexists; split; [reflexivity|].
    intros reason p'' F; unfold reply_failure in F; unfold json.
    destruct (json_body r) as [data|m]; cbn [rbind rcatch rfinally ret throw].
    + destruct (ok r); [discriminate|]; injection F as <-; reflexivity.
    + injection F as <-; reflexivity.
  - intros reason q; repeat split.
    unfold add_site_failed, add_site_rested, set_disabled, set_textContent, set_shown,
      set_classes; frame.
Qed.

Lemma submit_feed_failure_keeps_form_witness :
  let p := set_value feedNameInput (lit " Ex ")
             (set_value feedUrlInput (lit " http://x/feed ") page0) in
  let r := @Build_response KAdded 400
             (Json {| ar_error := Some (lit "Already added"); ar_name := None;
                      ar_fetched := None |}) in
  exists resume resume',
    onSubmitFeedClick (host := plain_host) p
    = AwaitFetch KAdded
        (post (lit "/api/feeds") (Some (lit "url=http://x/feed;name=Ex;category=;")))
        (adding_feed p) resume
    /\ resume (Resolved r) (adding_feed p) = AwaitBody (adding_feed p) resume'
    /\ resume' (adding_feed p)
       = Return tt (add_feed_failed (lit "Already added") (adding_feed p))
    /\ value (dom (add_feed_failed (lit "Already added") (adding_feed p)) feedUrlInput)
       = lit " http://x/feed ".
Proof.
  intros p r.
  destruct (@submit_feed_failure_keeps_form plain_host p eq_refl)
    as [resume (E & _ & H & _)].
  destruct (H r (adding_feed p)) as [resume' [R F]].
  exists resume, resume'.
  split; [exact E|]. split; [exact R|].
  split; [exact (F (lit "Already added") (adding_feed p) eq_refl) | reflexivity].
Defined.

Lemma submit_site_failure_keeps_form_witness :
  let p := set_value siteQueryInput (lit "ai news")
             (set_value siteUrlInput (lit "http://x") page0) in
  exists resume,
    onSubmitSiteClick (host := plain_host) p
    = AwaitFetch KAdded
        (post (lit "/api/sites")
           (Some (lit "url=http://x;name=;query=ai news;category=;")))
        (adding_site p) resume
    /\ resume (Rejected (lit "Failed to fetch")) (adding_site p)
       = Return tt (add_site_failed (lit "Failed to fetch") (adding_site p))
    /\ value (dom (add_site_failed (lit "Failed to fetch") (adding_site p)) siteQueryInput)
       = lit "ai news".
Proof.
  intros p.
  destruct (@submit_site_failure_keeps_form plain_host p eq_refl)
    as [resume (E & Rj & _)].
  exists resume.
  split; [exact E|]. split; [apply Rj | reflexivity].
Defined.





(** ** The registry lists *)

(** X18.  [loadCustomFeeds] shows the loading placeholder, sends one
    request and never looks at the status of the answer.  A rejected
    request or a body that is not JSON gives the error placeholder and no
    delete button; an empty list gives the empty placeholder and no
    delete button; otherwise the list shows one row per feed, in the
    order received, and, when every id passes through the [data-id]
    attribute unchanged (no double quote, ampersand, carriage return or
    NUL in it), one enabled delete button per row carrying the id of its
    feed.  Nothing but the list changes. *)
Theorem feed_list_rendered {host : Host} (p : page) :
  exists resume,
    loadCustomFeeds p
    = AwaitFetch KFeeds (get (lit "/api/feeds"))
        (set_innerHTML customFeedsList (hint "field-hint" (lit "Loading" ++ ellipsis)) p)
        resume
    /\ (forall m p',
          resume (Rejected m) p' = Return tt (feeds_shown (SyntaxError m) p'))
    /\ (forall (r : response KFeeds) p',
          exists resume',
            resume (Resolved r) p' = AwaitBody p' resume'
            /\ forall p'', resume' p'' = Return tt (feeds_shown (json_body r) p''))
    /\ forall b q,
         same_except [customFeedsList] q (feeds_shown b q)
         /\ match b with
            | Json feeds =>
                forallb attribute_safe (map fs_id feeds) = true ->
                buttons (dom (feeds_shown b q) customFeedsList)
                = map (fun f => enabled_button (fs_id f)) feeds
            | SyntaxError _ =>
                buttons (dom (feeds_shown b q) customFeedsList) = []
            end.
Proof.
  eexists; split; [reflexivity|].
  split; [intros m p'; reflexivity|].
  split.
  - intros r p'; eexists; split; [reflexivity|].
    intros p''; unfold json, feeds_shown.
    destruct (json_body r) as [feeds|m]; cbn [rbind rcatch ret throw]; [|reflexivity].
    destruct (length feeds =? 0); reflexivity.
  - intros b q; split.
    + unfold feeds_shown; destruct b as [feeds|m];
        [destruct (length feeds =? 0)|];
        unfold listen_delete, set_innerHTML, set_shown; frame.
    + unfold feeds_shown; destruct b as [feeds|m]; [intros _|reflexivity].
      destruct feeds as [|f feeds]; [reflexivity|].
      cbn [length Nat.eqb]; unfold listen_delete, with_dom; cbn [dom].
      rewrite upd_same; cbn [buttons]; rewrite map_map; reflexivity.
Qed.

Lemma feed_list_rendered_witness :
  let feeds := [ {| fs_id := lit "7"; fs_name := Some (lit "Blog"); fs_url := None;
                    fs_category := Some (lit "Gaming") |};
                 {| fs_id := lit "9"; fs_name := None; fs_url := None;
                    fs_category := None |} ] in
  buttons (dom (feeds_shown (host := plain_host) (Json feeds) page0) customFeedsList)
  = [enabled_button (lit "7"); enabled_button (lit "9")].
Proof.
  intro feeds.
  destruct (@feed_list_rendered plain_host page0) as [resume (_ & _ & _ & H)].
  destruct (H (Json feeds) page0) as [_ B].
  apply B; vm_compute; reflexivity.
Defined.

(** X19.  [loadScrapedSites] does the same for the site list: error
    placeholder, empty placeholder, or one row per site and, when every
    id passes through the [data-id] attribute unchanged, one enabled
    delete button per row carrying the id of its site; the status of the
    answer is not looked at and nothing but the list changes. *)
Theorem site_list_rendered {host : Host} (p : page) :
  exists resume,
    loadScrapedSites p
    = AwaitFetch KSites (get (lit "/api/sites"))
        (set_innerHTML scrapedSitesList (hint "field-hint" (lit "Loading" ++ ellipsis)) p)
        resume
    /\ (forall m p',
          resume (Rejected m) p' = Return tt (sites_shown (SyntaxError m) p'))
    /\ (forall (r : response KSites) p',
          exists resume',
            resume (Resolved r) p' = AwaitBody p' resume'
            /\ forall p'', resume' p'' = Return tt (sites_shown (json_body r) p''))
    /\ forall b q,
         same_except [scrapedSitesList] q (sites_shown b q)
         /\ match b with
            | Json sites =>
                forallb attribute_safe (map ss_id sites) = true ->
                buttons (dom (sites_shown b q) scrapedSitesList)
                = map (fun s => enabled_button (ss_id s)) sites
            | SyntaxError _ =>
                buttons (dom (sites_shown b q) scrapedSitesList) = []
            end.
Proof.
  eexists; split; [reflexivity|].
  split; [intros m p'; reflexivity|].
  split.
  - intros r p'; eexists; split; [reflexivity|].
    intros p''; unfold json, sites_shown.
    destruct (json_body r) as [sites|m]; cbn [rbind rcatch ret throw]; [|reflexivity].
    destruct (length sites =? 0); reflexivity.
  - intros b q; split.
    + unfold sites_shown; destruct b as [sites|m];
        [destruct (length sites =? 0)|];
        unfold listen_delete, set_innerHTML, set_shown; frame.
    + unfold sites_shown; destruct b as [sites|m]; [intros _|reflexivity].
      destruct sites as [|s sites]; [reflexivity|].
      cbn [length Nat.eqb]; unfold listen_delete, with_dom; cbn [dom].
      rewrite upd_same; cbn [buttons]; rewrite map_map; reflexivity.
Qed.

Lemma site_list_rendered_witness :
  let sites := [ {| ss_id := lit "3"; ss_name := Some (lit "Studio"); ss_url := None;
                    ss_query := None; ss_category := None |} ] in
  buttons (dom (sites_shown (host := plain_host) (Json sites) page0) scrapedSitesList)
  = [enabled_button (lit "3")].
Proof.
  intro sites.
  destruct (@site_list_rendered plain_host page0) as [resume (_ & _ & _ & H)].
  destruct (H (Json sites) page0) as [_ B].
  apply B; vm_compute; reflexivity.
Defined.

(** ** Busy buttons *)





(** ** Start-up *)

Lemma ends_with_after (Q : page -> Prop) (m : res unit) (f : unit -> page -> res unit) :
  settles m -> (forall p, ends_with Q (f tt p)) -> ends_with Q (rbind m f).
Proof.
  intros M F; induction m as [[] p|e p|k r p c IH|p c IH];
    cbn [rbind ends_with settles] in *.
  - apply F.
  - destruct M.
  - intros o p'; apply IH, M.
  - intros p'; apply IH, M.
Qed.

Lemma schedule_arms (p : page) : interval_armed (scheduleAutoRefresh p).
Proof.
  exists (interval_timer (clearTimer (autoRefreshTimer p) p)).
  split; [cbn; apply in_or_app; right; left; reflexivity|].
  repeat split.
Qed.

(** X21.  The start-up block shows the loading placeholder, sends the
    unfiltered article load first, never throws, and arms the
    auto-refresh at its end whatever became of the first load and of the
    status request: a backend that is down at start-up does not keep the
    page from refreshing later. *)
Theorem init_always_schedules {host : Host} (p : page) :
  (exists resume,
     init p
     = AwaitFetch KArticles (get (lit "/api/articles"))
         (set_innerHTML feed
            (tag "div" [attr "class" (lit "loading")]
               (lit "Fetching articles" ++ ellipsis)) p) resume)
  /\ settles (init p)
  /\ ends_with interval_armed (init p).
Proof.
  split; [eexists; reflexivity|].
  split.
  - unfold init, bind, act; cbn [rbind].
    apply settles_rbind; [apply loadArticles_settles|]; intros _ q.
    apply settles_rbind; [apply updateStatus_settles|]; intros _ q'; exact Logic.I.
  - unfold init, bind, act; cbn [rbind].
    apply ends_with_after; [apply loadArticles_settles|]; intros q.
    apply ends_with_after; [apply updateStatus_settles|]; intros q'.
    apply schedule_arms.
Qed.

(** ** Closing the modal *)

Lemma has_class_add (c : jsstring) (cs : list jsstring) :
  has_class c (if has_class c cs then cs else cs ++ [c]) = true.
Proof.
  destruct (has_class c cs) eqn:E; [exact E|].
  unfold has_class; rewrite existsb_app; cbn [existsb].
  destruct (str_eqb_spec c c); [|contradiction].
  rewrite orb_true_r; reflexivity.
Qed.

(** X22.  The close control, a click on the backdrop itself and the
    Escape key all do the same: the modal is hidden, nothing is sent, and
    the fields and status lines of the forms keep what they hold (it is
    opening that empties them).  Any other key does nothing. *)
Theorem closing_keeps_forms {host : Host} (w : world) :
  (disabled (dom (pg w) modalClose) = false ->
   step (Click modalClose) w = on_page closeModal w)
  /\ (disabled (dom (pg w) feedModal) = false ->
      step (Click feedModal) w = on_page closeModal w)
  /\ step (KeyDown (lit "Escape")) w = on_page closeModal w
  /\ (forall key, key <> lit "Escape" -> step (KeyDown key) w = w)
  /\ has_class (lit "hidden") (classes (dom (closeModal (pg w)) feedModal)) = true
  /\ same_except [feedModal] (pg w) (closeModal (pg w))
  /\ sent (on_page closeModal w) = sent w
  /\ inflight (on_page closeModal w) = inflight w.
Proof.
  split; [intros E; unfold step, click; rewrite E; reflexivity|].
  split; [intros E; unfold step, click; rewrite E; reflexivity|].
  split; [reflexivity|].
  split.
  - intros key N; unfold step.
    destruct (str_eqb_spec key (lit "Escape")); [contradiction | reflexivity].
  - split; [|split; [|split; reflexivity]].
    + unfold closeModal, classList_add, set_classes, with_dom; cbn [dom].
      rewrite upd_same; cbn [classes]; apply has_class_add.
    + unfold closeModal, classList_add, set_classes; frame.
Qed.

Lemma closing_keeps_forms_witness :
  let w := on_page (set_value feedUrlInput (lit "http://x")) world0 in
  value (dom (pg (step (host := plain_host) (Click modalClose) w)) feedUrlInput)
  = lit "http://x"
  /\ step (host := plain_host) (KeyDown (lit "Enter")) w = w.
Proof.
  intros w.
  destruct (@closing_keeps_forms plain_host w) as (C & _ & _ & K & _).
  split; [rewrite (C eq_refl); reflexivity|].
  apply K; discriminate.
Defined.

Lemma escHtml_no_markup_witness :
  escHtml (Some (lit "<b>A & B</b>")) = lit "&lt;b&gt;A &amp; B&lt;/b&gt;"
  /\ ~ In 60%N (escHtml (Some (lit "<b>A & B</b>"))).
Proof.
  split; [reflexivity|].
  intros I.
  destruct (proj1 (escHtml_no_markup (Some (lit "<b>A & B</b>"))) 60%N I) as [N _].
  exact (N eq_refl).
Defined.

(** ** Truncation once more *)

Lemma firstn_length_le (n : nat) (s : jsstring) : length (firstn n s) <= n.
Proof. rewrite length_firstn; lia. Qed.

Lemma trimEnd_length (s : jsstring) : length (trimEnd s) <= length s.
Proof.
  destruct (trimEnd_split s) as [ws [E _]].
  rewrite E at 2; rewrite length_app; lia.
Qed.

(** X23.  [truncate] never returns more than 301 code units, and never
    more than it was given; and truncating what it returned changes
    nothing, so a summary that was cut once is stable. *)
Theorem truncate_bounded_idempotent (text : jsstring) :
  length (truncate text) <= 301
  /\ length (truncate text) <= length text
  /\ truncate (truncate text) = truncate text.
Proof.
  unfold truncate, truncate_to.
  destruct text as [|c text'] eqn:E; [cbn [truthy negb length]; repeat split; lia|].
  rewrite <- E; replace (negb (truthy text)) with false by (subst; reflexivity).
  destruct (Nat.ltb_spec 300 (length text)) as [L|L].
  - unfold slice0; set (kept := trimEnd (firstn 300 text)).
    assert (K : length kept <= 300).
    { unfold kept; pose proof (trimEnd_length (firstn 300 text)).
      pose proof (firstn_length_le 300 text); lia. }
    assert (Ln : length (kept ++ ellipsis) = S (length kept))
      by (rewrite length_app; cbn [length ellipsis]; lia).
    split; [lia|]. split; [lia|].
    assert (T : negb (truthy (kept ++ ellipsis)) = false)
      by (destruct kept; reflexivity).
    rewrite T.
    destruct (Nat.ltb_spec 300 (length (kept ++ ellipsis))) as [L'|L']; [|reflexivity].
    assert (K300 : length kept = 300) by lia.
    rewrite firstn_app, K300, Nat.sub_diag, firstn_O, app_nil_r.
    rewrite <- K300, firstn_all.
    assert (Tk : trimEnd kept = kept) by (apply trimEnd_id, trimEnd_tidy).
    rewrite Tk; reflexivity.
  - split; [lia|]. split; [lia|].
    replace (negb (truthy text)) with false by (subst; reflexivity).
    destruct (Nat.ltb_spec 300 (length text)); [lia | reflexivity].
Qed.
